(** * pdnssoc-cli: the [correlate] and [fetch_iocs] commands

    A shallow embedding of [src/pdnssoccli/pdnssoccli.py] and of
    [src/pdnssoccli/subcommands/fetch_iocs.py].  Files are a finite map
    from paths to their bytes, the commands run in a state and exception
    monad over that file system and a trace of the effects they perform,
    and the helpers of [pdnssoccli.utils] are an interface. *)

From Stdlib Require Import ZArith Ascii String.
From stdpp Require Import base option list sorting gmap strings pretty.

Local Open Scope Z_scope.

(** ** Python strings *)

Module Str.

(** [str.isspace] on one ASCII character. *)
Definition is_space (c : ascii) : bool :=
  let n := nat_of_ascii c in
  ((9 <=? n) && (n <=? 13) || (28 <=? n) && (n <=? 32))%nat.

Fixpoint lstrip (s : string) : string :=
  match s with
  | String c s' => if is_space c then lstrip s' else s
  | EmptyString => EmptyString
  end.

Definition rstrip (s : string) : string :=
  String.rev (lstrip (String.rev s)).

(** [s.strip()] *)
Definition strip (s : string) : string := rstrip (lstrip s).

Definition lower_char (c : ascii) : ascii :=
  let n := nat_of_ascii c in
  if ((65 <=? n) && (n <=? 90))%nat then ascii_of_nat (n + 32) else c.

(** [s.lower()] *)
Fixpoint lower (s : string) : string :=
  match s with
  | String c s' => String (lower_char c) (lower s')
  | EmptyString => EmptyString
  end.

(** [sep in s] for a one-character [sep]. *)
Fixpoint contains (sep : ascii) (s : string) : bool :=
  match s with
  | String c s' => if Ascii.eqb c sep then true else contains sep s'
  | EmptyString => false
  end.

Fixpoint split_go (sep : ascii) (cur : string) (s : string) : list string :=
  match s with
  | String c s' =>
      if Ascii.eqb c sep then String.rev cur :: split_go sep EmptyString s'
      else split_go sep (String c cur) s'
  | EmptyString => [String.rev cur]
  end.

(** [s.split(sep)] for a one-character [sep]. *)
Definition split (sep : ascii) (s : string) : list string :=
  split_go sep EmptyString s.

(** ["{}\n".format(s)] *)
Definition line (s : string) : string := s +:+ String "010" "".

(** [a < b] on [str]: lexicographic on the code points, which is the
    order of the bytes of their UTF-8 encoding. *)
Definition lt (a b : string) : bool := String.ltb a b.

End Str.

(** [s.count(sep)] for a one-character [sep]. *)
Fixpoint occurrences (sep : ascii) (s : string) : nat :=
  match s with
  | String c s' => (if Ascii.eqb c sep then 1 else 0)%nat + occurrences sep s'
  | EmptyString => 0
  end.

(** [sep.join(parts)] for a one-character [sep]. *)
Fixpoint join (sep : ascii) (parts : list string) : string :=
  match parts with
  | [] => ""
  | [a] => a
  | a :: rest => a +:+ String sep (join sep rest)
  end.

(** ** Python builtins on lists *)

Section builtins.
Context {A K : Type} (key : A → K) (lt : K → K → bool).

(** One step of a stable insertion: [x] came before every element of
    [l] in the input and passes only those whose key is smaller. *)
Fixpoint insert_by (x : A) (l : list A) : list A :=
  match l with
  | [] => [x]
  | y :: l' =>
      if lt (key y) (key x) then y :: insert_by x l' else x :: l
  end.

(** [sorted(l, key=key)]: a stable sort that compares keys with [<]. *)
Fixpoint sorted (l : list A) : list A :=
  match l with
  | [] => []
  | x :: l' => insert_by x (sorted l')
  end.
(** [a] may stand before [b]: the key of [b] is not smaller. *)
Definition in_order (a b : A) : Prop := lt (key b) (key a) = false.
End builtins.

(** [list(set(l))]: the distinct elements, in the order of the set. *)
Definition list_set (l : list string) : list string :=
  elements (list_to_set l : gset string).

(** ** The world: files, directories and the effects performed *)

Inductive level := INFO | WARNING | DEBUG.

Inductive mode := Truncate | AppendTo.

Inductive event :=
  | Log (lvl : level) (msg : string)
  | Unlink (p : string)
  | Rmtree (p : string)
  | OpenFile (p : string) (m : mode)
  | WriteText (p : string) (text : string).

(** [fs] holds the regular files with their bytes, [dirs] the
    directories, [trace] the effects performed so far, oldest first. *)
Record world := World {
  fs : gmap string string;
  dirs : gset string;
  trace : list event
}.

Inductive exn :=
  | KeyError (k : string)
  | UnboundLocalError (v : string)
  | TypeError
  | ValueError
  | FileNotFoundError (p : string)
  | NotADirectoryError (p : string)
  | OSError (p : string)
  | External (msg : string).

Inductive res (A : Type) :=
  | Ok (a : A)
  | Raise (e : exn).
Arguments Ok {A} a.
Arguments Raise {A} e.

(** A command: it ends in a value or in an exception, and in both cases
    leaves the world it has reached. *)
Definition M (A : Type) : Type := world → res A * world.

Global Instance M_ret : MRet M := λ A a w, (Ok a, w).
Global Instance M_bind : MBind M := λ A B f m w,
  match m w with
  | (Ok a, w') => f a w'
  | (Raise e, w') => (Raise e, w')
  end.

Definition raise {A} (e : exn) : M A := λ w, (Raise e, w).
Definition lift {A} (r : res A) : M A := λ w, (r, w).
Definition emit (e : event) : M unit :=
  λ w, (Ok tt, World (fs w) (dirs w) (trace w ++ [e])).

(** [for x in l: body], threading what the body updates. *)
Fixpoint for_each {A S} (body : S → A → M S) (l : list A) (s : S) : M S :=
  match l with
  | [] => mret s
  | x :: l' => s' ← body s x; for_each body l' s'
  end.

(** [d[k]] on a key that may be missing. *)
Definition item {A} (k : string) (o : option A) : M A :=
  match o with
  | Some a => mret a
  | None => raise (KeyError k)
  end.

(** The use of a local variable that may not have been assigned. *)
Definition bound {A} (v : string) (o : option A) : M A :=
  match o with
  | Some a => mret a
  | None => raise (UnboundLocalError v)
  end.

(** *** pathlib and shutil *)

(** The root that [PurePosixPath] splits off a name: a slash, or two
    slashes when the name starts with exactly two. *)
Definition root (s : string) : string :=
  match s with
  | String "/" (String "/" (String "/" _)) => "/"
  | String "/" (String "/" _) => "//"
  | String "/" _ => "/"
  | _ => ""
  end.

(** The components of a name: what stands between its slashes, the
    empty ones and [.] left out. *)
Definition components (s : string) : list string :=
  filter (λ c, c ≠ "" ∧ c ≠ ".") (Str.split "/" s).

(** [str] of the path with this root and these components. *)
Definition of_parts (r : string) (cs : list string) : string :=
  if decide (r = "" ∧ cs = []) then "." else r +:+ join "/" cs.

(** [Path(s)], as [str] prints it: slashes that follow one another are
    one, a [.] and a slash at the end are dropped, [..] stays, and the
    empty name is [.]. *)
Definition Path (s : string) : string := of_parts (root s) (components s).

(** [Path(d, name)]: [name] below [d], or [name] alone when it has a
    root. *)
Definition path_join (d name : string) : string :=
  if decide (root name = "") then of_parts (root d) (components d ++ components name)
  else Path name.

(** [p] lies below the directory [d], both as pathlib prints them: [d]
    is among the parents of [p]. *)
Definition below (d p : string) : bool :=
  if decide (d = ".") then bool_decide (root p = "" ∧ p ≠ ".")
  else if decide (d = "/" ∨ d = "//") then bool_decide (root p = d ∧ p ≠ d)
  else String.prefix (d +:+ "/") p.

(** The last component of a name as the system resolves it is [.], as
    in [in/.] and in [./]. *)
Definition ends_in_dot (s : string) : bool :=
  bool_decide (last (filter (λ c, c ≠ "") (Str.split "/" s)) = Some ".").

(** [rmdir] fails on the name: it ends in [.], or it is the root. *)
Definition rmdir_refuses (s : string) : bool :=
  ends_in_dot s || bool_decide (components s = []).

(** [p.is_file()] *)
Definition is_file (p : string) : M bool :=
  λ w, (Ok (bool_decide (is_Some (fs w !! p))), w).

(** [d.rglob('*')]: every path below [d], files and directories. *)
Definition rglob (d : string) : M (list string) :=
  λ w, (Ok (filter (λ p, Is_true (below d p))
              ((map_to_list (fs w)).*1 ++ elements (dirs w))), w).

(** [p.unlink()] *)
Definition unlink (p : string) : M unit :=
  λ w, match fs w !! p with
       | Some _ => (Ok tt, World (delete p (fs w)) (dirs w) (trace w ++ [Unlink p]))
       | None => (Raise (FileNotFoundError p), w)
       end.

(** [shutil.rmtree(d)] on a name as the command line gives it.  The
    directory is the one that [Path(d)] names; the empty name is none,
    and neither is a regular file.  What lies below goes first and the
    directory last, by [rmdir]: where that fails the call fails, with
    the directory emptied and still there. *)
Definition rmtree (d : string) : M unit :=
  λ w, let dir := Path d in
       if decide (is_Some (fs w !! dir)) then (Raise (NotADirectoryError d), w)
       else if decide (d ≠ "" ∧ dir ∈ dirs w) then
         let files := filter (λ kv, ¬ Is_true (below dir kv.1)) (fs w) in
         if rmdir_refuses d then
           (Raise (OSError d),
            World files (filter (λ p, ¬ Is_true (below dir p)) (dirs w))
                  (trace w ++ [Rmtree d]))
         else
           (Ok tt,
            World files (filter (λ p, p ≠ dir ∧ ¬ Is_true (below dir p)) (dirs w))
                  (trace w ++ [Rmtree d]))
       else (Raise (FileNotFoundError d), w).

(** *** Writers *)

(** [open(p, 'a')], as [jsonlines.open(p, mode='a')] does: the file is
    created when missing and keeps its bytes otherwise. *)
Definition open_append (p : string) : M unit :=
  λ w, (Ok tt, World (<[p := default "" (fs w !! p)]> (fs w)) (dirs w)
                     (trace w ++ [OpenFile p AppendTo])).

(** Modelled from the spec: [write_generic] of [pdnssoccli.utils.file],
    which is not part of the sources at hand.  The spec has the files
    written through it overwritten: the path is opened for writing and
    starts empty. *)
Definition write_generic (p : string) : M unit :=
  λ w, (Ok tt, World (<[p := ""]> (fs w)) (dirs w) (trace w ++ [OpenFile p Truncate])).

(** [fp.write(text)] on a writer opened on [p]. *)
Definition write (p text : string) : M unit :=
  λ w, (Ok tt, World (<[p := default "" (fs w !! p) +:+ text]> (fs w)) (dirs w)
                     (trace w ++ [WriteText p text])).

(** ** Data *)

(** The [correlation] section of the YAML configuration.  A key the
    file does not have is [None]. *)
Record correlation_config := {
  last_correlation_pointer_file : option string;
  malicious_domains_file : option string;
  malicious_ips_file : option string;
  output_dir : option string
}.

(** One entry of [misp_servers]. *)
Record misp_conf := {
  conf_domain : string;
  conf_api_key : string;
  conf_args : list (string * string)
}.

Record config := {
  correlation : correlation_config;
  misp_servers : list misp_conf
}.

(** The configuration as [yaml.safe_load] returns it: each of the three
    keys the commands look up may be missing. *)
Record parsed_config := {
  parsed_correlation : option correlation_config;
  parsed_logging_level : option string;
  parsed_misp_servers : option (list misp_conf)
}.

(** [{}] *)
Definition empty_config : parsed_config := {|
  parsed_correlation := None;
  parsed_logging_level := None;
  parsed_misp_servers := None
|}.

(** The arguments of [correlate].  Instants are nanoseconds since the
    epoch. *)
Record kwargs := {
  files : list string;
  start_date : option Z;
  end_date : Z;
  delete_on_success : bool
}.

(** [k in d and d[k]] on a string value: present and not empty. *)
Definition truthy (o : option string) : option string :=
  match o with
  | Some p => if decide (p = "") then None else Some p
  | None => None
  end.

(** What [ipaddress.ip_network] and [ipaddress.ip_address] build: the
    family, the address as a number and, for a network, the length of
    the prefix. *)
Record network := Network {
  net_v6 : bool;
  net_base : N;
  net_prefixlen : N
}.

Record address := Address {
  addr_v6 : bool;
  addr_bits : N
}.

Global Instance network_eq_dec : EqDecision network.
Proof. solve_decision. Defined.

Global Instance network_countable : Countable network.
Proof.
  refine (inj_countable' (λ n, (net_v6 n, net_base n, net_prefixlen n))
            (λ t, Network t.1.1 t.1.2 t.2) _).
  by intros [].
Defined.

(** [a in n] *)
Definition net_contains (n : network) (a : address) : bool :=
  let width := (if net_v6 n then 128 else 32)%N in
  bool_decide (net_v6 n = addr_v6 a) &&
  (N.shiftr (addr_bits a) (width - net_prefixlen n)
   =? N.shiftr (net_base n) (width - net_prefixlen n))%N.

(** A parsed line of a log (DnsObservationRecord in the spec). *)
Record record := {
  rec_timestamp : Z;
  queryName : string;
  answers : list string;
  sourceIp : option string;
  sourceIp2 : option string
}.

Inductive indicator :=
  | Domain (d : string)
  | Ip (n : network).

Inductive field :=
  | QueryName
  | Answer (i : nat)
  | SourceIp
  | SourceIp2.

(** A match; [encoding] is the tag of the file the record was read in,
    [true] for the minified one. *)
Record match_ := Match {
  matched_record : record;
  matchedIndicator : indicator;
  matchedField : field;
  encoding : bool
}.

(** An enriched match, the dict that [enrich_logs] returns: [correlate]
    reads its ['timestamp'] and hands the dict to the JSON writer. *)
Record document := Document {
  timestamp : string;
  body : string
}.

(** An attribute of an intelligence server. *)
Record attribute := Attribute {
  type : string;
  value : string
}.

(** ** The collaborators

    [pymisp], [ipaddress], [urllib], [json] and the modules of
    [pdnssoccli.utils], none of which is part of the sources at hand. *)
Class Utils := {
  (** a connection to a server *)
  misp : Type;
  (** [PyMISP(conf['domain'], conf['api_key'], True, debug=False)] *)
  PyMISP : misp_conf → res misp;
  (** the values of [misp.search(controller='attributes',
      type_attribute='domain', to_ids=1, pythonify=True)] *)
  search_domains : misp → res (list string);
  (** the same search with [type_attribute=['ip-src','ip-dst']] *)
  search_ips : misp → res (list string);
  (** the search of [fetch_iocs], over its nine types and with the
      [args] of the server *)
  search_iocs : misp → list (string * string) → res (list attribute);
  (** [ipaddress.ip_network(s, strict=False)]; [None] is [ValueError] *)
  ip_network : string → option network;
  (** [ipaddress.ip_address(s)] *)
  ip_address : string → option address;
  (** [urlparse(s).netloc] *)
  netloc : string → res string;
  (** [json.dumps], as the [jsonlines] writer calls it *)
  dumps : document → string;
  (** [datetime.now()] and [str] of a datetime *)
  now : Z;
  str_datetime : Z → string;
  (** [utils.file.read_file] on the bytes of a file, [None] when there is
      no such file: what the returned iterator yields and the encoding
      tag.  The first component is [None] for a falsy result that
      cannot be iterated. *)
  read_file : option string → res (option (list string) * bool);
  (** [utils.time.parse_rfc3339_ns] *)
  parse_rfc3339_ns : string → res Z;
  (** the parser of one log line in either encoding *)
  parse_record : bool → string → option record;
  (** [utils.enrichment.enrich_logs(matches, connections, is_minified)] *)
  enrich_logs : list match_ → list misp → bool → res (list document);
  (** [utils.ip_address.validIPAddress] *)
  validIPAddress : string → bool;
  (** [os.getcwd()] *)
  getcwd : string
}.

Section commands.
Context {U : Utils}.

(** ** The correlation engine *)

(** Modelled from the spec: [matchesDomain] of the indicator set, part
    of [pdnssoccli.utils.correlation], which is not among the sources
    at hand.  The spec has it exact and case-insensitive: the name
    matches a domain of the set that is the same once both are folded to
    lowercase. *)
Definition matchesDomain (domains : gset string) (name : string) : bool :=
  bool_decide (Str.lower name ∈ (set_map Str.lower domains : gset string)).

(** Modelled from the spec: [matchesIp], the first network of the set
    that contains the address. *)
Definition matchesIp (networks : gset network) (a : address) : option network :=
  head (filter (λ n, Is_true (net_contains n a)) (elements networks)).

(** The fields of a record that may hold an IP literal. *)
Definition ip_fields (r : record) : list (field * string) :=
  imap (λ i a, (Answer i, a)) (answers r)
  ++ option_list (pair SourceIp <$> sourceIp r)
  ++ option_list (pair SourceIp2 <$> sourceIp2 r).

(** Modelled from the spec: the four steps that section 4.3 gives for
    one record.  The domain of a match is the query name folded to
    lowercase, the form in which the set of the spec holds it. *)
Definition correlate_record (windowStart windowEnd : Z)
    (domains : gset string) (networks : gset network) (is_minified : bool)
    (r : record) : list match_ :=
  if (rec_timestamp r <? windowStart) || (windowEnd <=? rec_timestamp r) then []
  else
    (if matchesDomain domains (queryName r)
     then [Match r (Domain (Str.lower (queryName r))) QueryName is_minified]
     else [])
    ++ omap (λ fv, a ← ip_address fv.2;
                   n ← matchesIp networks a;
                   Some (Match r (Ip n) fv.1 is_minified)) (ip_fields r).

(** Modelled from the spec: [correlate_file] of
    [pdnssoccli.utils.correlation], which is not among the sources at
    hand.  Lines that do not parse are skipped; the matches come in the
    order of the file. *)
Definition correlate_file (file_iter : list string) (start_date end_date : Z)
    (domain_attributes : gset string) (ip_attributes : gset network)
    (is_minified : bool) : list match_ :=
  flat_map (correlate_record start_date end_date domain_attributes ip_attributes
              is_minified)
           (omap (parse_record is_minified) file_iter).

(** ** [correlate], pdnssoccli.py lines 128-279 *)

(** [read_file(p)] on a path.  The configuration names each of its
    files once, and such a file is known by that name as it is written
    there: the pointer is read at line 143 and written at line 278 under
    one name. *)
Definition read (p : string) : M (option (list string) * bool) :=
  λ w, (read_file (fs w !! p), w).

(** [p.absolute()] *)
Definition absolute (p : string) : string :=
  if decide (root p = "") then path_join getcwd p else p.

(** [for x in it], which needs an iterable. *)
Definition iterate (it : option (list string)) : M (list string) :=
  match it with
  | Some l => mret l
  | None => raise TypeError
  end.

(** Lines 140-154.  [None] is returned when the branch taken leaves
    [start_date] unassigned. *)
Definition determine_start_date (correlation_config : correlation_config)
    (kw : kwargs) : M (option Z) :=
  match start_date kw with
  | None =>
      match last_correlation_pointer_file correlation_config with
      | Some p =>
          '(correlation_last, _) ← read p;
          lines ← iterate correlation_last;
          match lines with
          | line :: _ =>
              timestamp ← lift (parse_rfc3339_ns line);
              mret (Some timestamp)
          | [] => mret None
          end
      | None => mret (Some now)
      end
  | Some d => mret (Some d)
  end.

(** Lines 166-170.  A [PyMISP] object defines neither [__bool__] nor
    [__len__], so [if misp] holds for each of them. *)
Definition connect (servers : list misp_conf) : M (list misp) :=
  for_each (λ misp_connections misp_conf,
              misp ← lift (PyMISP misp_conf);
              mret (misp_connections ++ [misp])) servers [].

(** Lines 174-185. *)
Definition build_domain_attributes (correlation_config : correlation_config)
    (misp_connections : list misp) : M (list string) :=
  domain_attributes ←
    match truthy (malicious_domains_file correlation_config) with
    | Some p =>
        '(domains_iter, _) ← read p;
        lines ← iterate domains_iter;
        mret (Str.strip <$> lines)
    | None =>
        for_each (λ domain_attributes misp,
                    attributes ← lift (search_domains misp);
                    mret (domain_attributes ++ attributes)) misp_connections []
    end;
  mret (list_set domain_attributes).

(** The loop of lines 191-196 and of lines 200-205: [prep] is
    [attribute.strip()] in the first and the identity in the second. *)
Definition load_networks (prep : string → string) (ips_iter : list string)
  : M (list network) :=
  for_each (λ ip_attributes attribute,
              match ip_network (prep attribute) with
              | Some network => mret (ip_attributes ++ [network])
              | None =>
                  emit (Log WARNING ("Invalid malicious IP value " +:+ attribute));;
                  mret ip_attributes
              end) ips_iter [].

(** The warnings of that loop: one for each value that is no network. *)
Definition invalid_ip_warnings (prep : string → string) (ips_iter : list string)
  : list event :=
  (λ attribute, Log WARNING ("Invalid malicious IP value " +:+ attribute))
    <$> filter (λ attribute, ip_network (prep attribute) = None) ips_iter.

(** Lines 188-205.  In the second branch [misp] is the variable of the
    loops above: the last connection, unassigned when there is none. *)
Definition build_ip_attributes (correlation_config : correlation_config)
    (misp_connections : list misp) : M (list network) :=
  match truthy (malicious_ips_file correlation_config) with
  | Some p =>
      '(ips_iter, _) ← read p;
      lines ← iterate ips_iter;
      load_networks Str.strip lines
  | None =>
      misp ← bound "misp" (last misp_connections);
      ips_iter ← lift (search_ips misp);
      load_networks id ips_iter
  end.

(** Lines 215-231, and again lines 240-257: one file is read,
    correlated and its matches are put in the list of its encoding. *)
Definition correlate_path (start_date end_date : Z)
    (domain_attributes : list string) (ip_attributes : list network)
    (totals : list match_ * list match_) (file_path : string)
  : M (list match_ * list match_) :=
  '(file_iter, is_minified) ← read file_path;
  match file_iter with
  | Some lines =>
      let matches := correlate_file lines start_date end_date
                       (list_to_set domain_attributes)
                       (list_to_set ip_attributes) is_minified in
      emit (Log INFO ("Found " +:+ pretty (length matches)
                      +:+ " matches in " +:+ absolute file_path));;
      mret (if is_minified then (totals.1, totals.2 ++ matches)
            else (totals.1 ++ matches, totals.2))
  | None => mret totals
  end.

(** Lines 210-260: the body of the loop over the arguments. *)
Definition correlate_input (kw : kwargs) (start_date : Z)
    (domain_attributes : list string) (ip_attributes : list network)
    (totals : list match_ * list match_) (file : string)
  : M (list match_ * list match_) :=
  let file_path := Path file in
  regular ← is_file file_path;
  if (regular : bool) then
    totals ← correlate_path start_date (end_date kw)
               domain_attributes ip_attributes totals file_path;
    (if delete_on_success kw then unlink file_path else mret tt);;
    mret totals
  else
    nested ← rglob file_path;
    totals ← for_each (λ totals nested_path,
                         regular ← is_file nested_path;
                         if (regular : bool) then
                           correlate_path start_date (end_date kw)
                             domain_attributes ip_attributes totals nested_path
                         else mret totals) nested totals;
    (if delete_on_success kw then rmtree file else mret tt);;
    mret totals.

(** The line of [matches.json] that holds a document. *)
Definition json_line (d : document) : string := Str.line (dumps d).

(** Lines 269-274: the batch is sorted and appended to [matches.json],
    one JSON document per line.  The sorted batch is [to_output]. *)
Definition write_matches (correlation_config : correlation_config)
    (batch : list document) : M (list document) :=
  let to_output := sorted timestamp Str.lt batch in
  dir ← item "output_dir" (output_dir correlation_config);
  let sink := path_join dir "matches.json" in
  open_append sink;;
  for_each (λ _ document, write sink (json_line document)) to_output tt;;
  mret to_output.

(** Lines 276-279: [if to_output], the timestamp of [to_output[-1]]
    replaces the pointer. *)
Definition keep_last_timestamp (correlation_config : correlation_config)
    (to_output : list document) : M unit :=
  match last to_output with
  | Some newest =>
      pointer ← item "last_correlation_pointer_file"
                  (last_correlation_pointer_file correlation_config);
      write_generic pointer;;
      write pointer (Str.line (timestamp newest))
  | None => mret tt
  end.

Definition output (correlation_config : correlation_config)
    (batch : list document) : M unit :=
  to_output ← write_matches correlation_config batch;
  keep_last_timestamp correlation_config to_output.

(** Lines 207-260: what the loop leaves in [total_matches] and in
    [total_matches_minified]. *)
Definition correlate_files (kw : kwargs) (start_date : Z)
    (domain_attributes : list string) (ip_attributes : list network)
  : M (list match_ * list match_) :=
  for_each (correlate_input kw start_date domain_attributes ip_attributes)
           (files kw) ([], []).

(** Lines 263-269. *)
Definition enrich (misp_connections : list misp)
    (totals : list match_ * list match_) : M (list document) :=
  enriched ← lift (enrich_logs totals.1 misp_connections false);
  enriched_minified ← lift (enrich_logs totals.2 misp_connections true);
  mret (enriched ++ enriched_minified).

(** The message of line 158. *)
Definition parsing_alerts (start_date end_date : Z) : event :=
  Log INFO ("Parsing alerts from: " +:+ str_datetime start_date
            +:+ " to " +:+ str_datetime end_date).

(** Lines 165-260: the connections, the indicators and the loop over
    the arguments, from a window start that is known. *)
Definition gather_from (cfg : config) (kw : kwargs) (start_date : Z)
  : M (list misp * (list match_ * list match_)) :=
  let correlation_config := correlation cfg in
  misp_connections ← connect (misp_servers cfg);
  domain_attributes ← build_domain_attributes correlation_config misp_connections;
  ip_attributes ← build_ip_attributes correlation_config misp_connections;
  totals ← correlate_files kw start_date domain_attributes ip_attributes;
  mret (misp_connections, totals).

(** Lines 131-260: everything up to the two lists of matches.  The
    message of line 158 is the first use of [start_date].  The set-up of
    [logging] and the [print] of line 138 are left out: the trace holds
    the calls of the loggers, the files touched and nothing else. *)
Definition gather (cfg : config) (kw : kwargs)
  : M (list misp * (list match_ * list match_)) :=
  start_date ← determine_start_date (correlation cfg) kw;
  start_date ← bound "start_date" start_date;
  emit (parsing_alerts start_date (end_date kw));;
  gather_from cfg kw start_date.

Definition correlate (cfg : config) (kw : kwargs) : M unit :=
  '(misp_connections, totals) ← gather cfg kw;
  batch ← enrich misp_connections totals;
  output (correlation cfg) batch.

(** ** [fetch_iocs], subcommands/fetch_iocs.py lines 39-140 *)

(** Lines 45-49. *)
Definition connect_with_args (servers : list misp_conf)
  : M (list (misp * list (string * string))) :=
  for_each (λ misp_connections misp_conf,
              misp ← lift (PyMISP misp_conf);
              mret (misp_connections ++ [(misp, conf_args misp_conf)])) servers [].

(** [a, b = s.split(sep)] *)
Definition split2 (sep : ascii) (s : string) : M (string * string) :=
  match Str.split sep s with
  | [a; b] => mret (a, b)
  | _ => raise ValueError
  end.

(** Lines 77-105: the [match] on the type of an attribute.  The pair is
    [domain_attributes_new] and [ips_attributes_new]. *)
Definition bucket (new : list string * list string) (attribute : attribute)
  : M (list string * list string) :=
  let t := type attribute in
  if decide (t = "domain" ∨ t = "hostname") then
    mret (new.1 ++ [value attribute], new.2)
  else if decide (t = "domain|ip") then
    '(domain_val, ip_val) ← split2 "|" (value attribute);
    mret (new.1 ++ [domain_val], new.2 ++ [ip_val])
  else if decide (t = "hostname|port") then
    '(hostname_val, _) ← split2 "|" (value attribute);
    mret (new.1 ++ [hostname_val], new.2)
  else if decide (t = "ip-src" ∨ t = "ip-dst") then
    mret (new.1, new.2 ++ [value attribute])
  else if decide (t = "ip-src|port" ∨ t = "ip-dst|port") then
    '(ip_val, _) ← split2 "|" (value attribute);
    mret (new.1, new.2 ++ [ip_val])
  else if decide (t = "url") then
    domain ← lift (netloc (value attribute));
    if Str.contains ":" domain then
      '(ip_token, _) ← split2 ":" domain;
      mret (if validIPAddress ip_token then (new.1, new.2 ++ [ip_token]) else new)
    else
      mret (if validIPAddress domain then (new.1, new.2 ++ [domain])
            else (new.1 ++ [domain], new.2))
  else mret new.

(** Lines 56-105. *)
Definition fetch (misp_connections : list (misp * list (string * string)))
  : M (list string * list string) :=
  for_each (λ new conn,
              attributes ← lift (search_iocs conn.1 conn.2);
              for_each bucket attributes new) misp_connections ([], []).

(** Lines 111-115, and again lines 127-131: the values the file holds,
    none when there is no such file. *)
Definition attributes_old (file : string) : M (list string) :=
  regular ← is_file file;
  if (regular : bool) then
    '(file_iter, _) ← read file;
    lines ← iterate file_iter;
    mret (Str.strip <$> lines)
  else mret [].

(** Lines 117-121, and again lines 133-137. *)
Definition rewrite_if_changed (file : string) (old new : list string) : M unit :=
  if decide ((list_to_set old : gset string) ≠ list_to_set new) then
    write_generic file;;
    for_each (λ _ attribute, write file (Str.line attribute)) (list_set new) tt
  else mret tt.

(** Lines 107-121 for the domains, lines 123-137 for the addresses. *)
Definition refresh (key : string) (path : option string) (new : list string)
  : M (list string) :=
  file ← item key path;
  old ← attributes_old file;
  rewrite_if_changed file old new;;
  mret old.

(** Lines 44-105: what the servers hold, as domains and addresses. *)
Definition gather_iocs (cfg : config) : M (list string * list string) :=
  misp_connections ← connect_with_args (misp_servers cfg);
  fetch misp_connections.

(** The message of line 140. *)
Definition currently (new : list string * list string)
    (ips_attributes_old : list string) : string :=
  "Currently "
  +:+ pretty (size (list_to_set new.1 ∪ list_to_set new.1 : gset string))
  +:+ " domains and "
  +:+ pretty (size (list_to_set new.2 ∪ list_to_set ips_attributes_old : gset string))
  +:+ " ips".

(** What a rewriting of [file] with the values [new] performs. *)
Definition rewriting (file : string) (new : list string) : list event :=
  OpenFile file Truncate :: (WriteText file ∘ Str.line <$> list_set new).

Definition fetch_iocs (cfg : config) : M unit :=
  let correlation_config := correlation cfg in
  new ← gather_iocs cfg;
  refresh "malicious_domains_file" (malicious_domains_file correlation_config) new.1;;
  ips_attributes_old ← refresh "malicious_ips_file"
                         (malicious_ips_file correlation_config) new.2;
  emit (Log DEBUG "Finished fetching of IOCs");;
  emit (Log INFO (currently new ips_attributes_old)).

(** ** The commands as the command line calls them *)

(** [configure], pdnssoccli.py lines 23-31.  [load] is what opening the
    file and [yaml.safe_load] give: a mapping, [None] for an empty
    document, or an exception, which the bare [except] turns into the
    empty mapping.  The result becomes [ctx.default_map], and [main]
    (lines 53-57) stores it as [ctx.obj['CONFIG']]. *)
Definition configure (load : res (option parsed_config)) : option parsed_config :=
  match load with
  | Ok parsed_config => parsed_config
  | Raise _ => Some empty_config
  end.

(** [ctx.obj['CONFIG'][k]] *)
Definition config_item {A} (CONFIG : option parsed_config) (k : string)
    (get : parsed_config → option A) : M A :=
  match CONFIG with
  | Some parsed_config => item k (get parsed_config)
  | None => raise TypeError
  end.

(** [correlate], pdnssoccli.py lines 128-279, with the look-ups of lines
    131, 135 and 167 in the configuration as it was parsed. *)
Definition correlate_command (CONFIG : option parsed_config) (kw : kwargs)
  : M unit :=
  correlation_config ← config_item CONFIG "correlation" parsed_correlation;
  config_item CONFIG "logging_level" parsed_logging_level;;
  start_date ← determine_start_date correlation_config kw;
  start_date ← bound "start_date" start_date;
  emit (parsing_alerts start_date (end_date kw));;
  servers ← config_item CONFIG "misp_servers" parsed_misp_servers;
  '(misp_connections, totals) ←
    gather_from {| correlation := correlation_config; misp_servers := servers |}
                kw start_date;
  batch ← enrich misp_connections totals;
  output correlation_config batch.

(** [fetch_iocs], subcommands/fetch_iocs.py, with the look-ups of lines
    42 and 46. *)
Definition fetch_iocs_command (CONFIG : option parsed_config) : M unit :=
  correlation_config ← config_item CONFIG "correlation" parsed_correlation;
  servers ← config_item CONFIG "misp_servers" parsed_misp_servers;
  fetch_iocs {| correlation := correlation_config; misp_servers := servers |}.

(** The loops of pdnssoccli.py lines 339-342 and 363-366: the values
    that every connection gives, one after the other. *)
Definition search_all (search : misp → res (list string))
    (misp_connections : list misp) : M (list string) :=
  for_each (λ attributes_new misp,
              attributes ← lift (search misp);
              mret (attributes_new ++ attributes)) misp_connections [].

(** [fetch_iocs] of pdnssoccli.py, lines 309-372. *)
Definition main_fetch_iocs (CONFIG : option parsed_config) : M unit :=
  config_item CONFIG "logging_level" parsed_logging_level;;
  correlation_config ← config_item CONFIG "correlation" parsed_correlation;
  servers ← config_item CONFIG "misp_servers" parsed_misp_servers;
  misp_connections ← connect servers;
  domains_file ← item "malicious_domains_file"
                   (malicious_domains_file correlation_config);
  domain_attributes_old ← attributes_old domains_file;
  domain_attributes_new ← search_all search_domains misp_connections;
  rewrite_if_changed domains_file domain_attributes_old domain_attributes_new;;
  ips_file ← item "malicious_ips_file" (malicious_ips_file correlation_config);
  ips_attributes_old ← attributes_old ips_file;
  ips_attributes_new ← search_all search_ips misp_connections;
  rewrite_if_changed ips_file ips_attributes_old ips_attributes_new.

End commands.

(** ** A small instance of the collaborators

    Servers hold the attributes listed in their configuration entry and
    reject an empty key when asked to enrich; addresses are dotted
    quads; a log line is an instant and a query name followed by the
    answers, between brackets in the minified encoding. *)

Module Sample.

Fixpoint digits_go (acc : N) (s : string) : option N :=
  match s with
  | EmptyString => Some acc
  | String c s' => d ← Ascii.is_nat c; digits_go (10 * acc + N.of_nat d) s'
  end.

Definition digits (s : string) : option N :=
  if decide (s = "") then None else digits_go 0 s.

Definition octet (s : string) : option N :=
  n ← digits s; if (n <? 256)%N then Some n else None.

Definition ipv4 (s : string) : option N :=
  match Str.split "." s with
  | [a; b; c; d] =>
      a ← octet a; b ← octet b; c ← octet c; d ← octet d;
      Some (((a * 256 + b) * 256 + c) * 256 + d)%N
  | _ => None
  end.

Definition dotted_network (s : string) : option network :=
  match Str.split "/" s with
  | [a] => n ← ipv4 a; Some (Network false n 32)
  | [a; l] =>
      n ← ipv4 a; l ← digits l;
      if (l <=? 32)%N
      then Some (Network false (N.shiftl (N.shiftr n (32 - l)) (32 - l)) l)
      else None
  | _ => None
  end.

Definition dotted_address (s : string) : option address := Address false <$> ipv4 s.

Definition authority (s : string) : res string :=
  Ok (match Str.split "/" s with
      | _ :: "" :: host :: _ => host
      | _ => ""
      end).

Definition lines (s : string) : list string :=
  match reverse (Str.split "010" s) with
  | "" :: l => reverse l
  | l => reverse l
  end.

Definition read_text (content : option string) : res (option (list string) * bool) :=
  match content with
  | Some s => Ok (Some (lines s), String.prefix "[" s)
  | None => Raise (FileNotFoundError "")
  end.

Definition parse_instant (s : string) : res Z :=
  match digits s with
  | Some n => Ok (Z.of_N n)
  | None => Raise ValueError
  end.

Definition unbracket (s : string) : string :=
  match s with
  | String "[" s' => Str.rstrip (String.rev (match String.rev s' with
                                             | String "]" t => t
                                             | t => t
                                             end))
  | _ => s
  end.

Definition parse_words (is_minified : bool) (s : string) : option record :=
  match Str.split " " (if is_minified then unbracket s else s) with
  | t :: q :: a =>
      n ← digits t;
      Some {| rec_timestamp := Z.of_N n; queryName := q; answers := a;
              sourceIp := None; sourceIp2 := None |}
  | _ => None
  end.

Definition enrich_all (matches : list match_) (connections : list misp_conf)
    (is_minified : bool) : res (list document) :=
  if decide (Exists (λ c, conf_api_key c = "") connections)
  then Raise (External "the server rejects the key")
  else Ok ((λ m, Document (pretty (rec_timestamp (matched_record m)))
                          (queryName (matched_record m))) <$> matches).

Definition held (types : list string) (m : misp_conf) : list attribute :=
  filter (λ a, type a ∈ types) ((λ tv, Attribute tv.1 tv.2) <$> conf_args m).

Definition utils : Utils := {|
  misp := misp_conf;
  PyMISP := Ok;
  search_domains m := Ok (value <$> held ["domain"] m);
  search_ips m := Ok (value <$> held ["ip-src"; "ip-dst"] m);
  search_iocs m _ := Ok (held ["domain"; "domain|ip"; "hostname"; "hostname|port";
                               "ip-src"; "ip-src|port"; "ip-dst"; "ip-dst|port";
                               "url"] m);
  ip_network := dotted_network;
  ip_address := dotted_address;
  netloc := authority;
  dumps d := timestamp d +:+ " " +:+ body d;
  now := 0;
  str_datetime := pretty;
  read_file := read_text;
  parse_rfc3339_ns := parse_instant;
  parse_record := parse_words;
  enrich_logs := enrich_all;
  validIPAddress s := bool_decide (is_Some (ipv4 s));
  getcwd := "/"
|}.

(** A run: one full log with a record of [EVIL.com] at instant 20 and
    one of [good.org] at instant 30, a pointer at 10. *)
Definition nl : string := String "010" "".

Definition cc : correlation_config := {|
  last_correlation_pointer_file := Some "/var/pointer";
  malicious_domains_file := Some "/etc/domains";
  malicious_ips_file := Some "/etc/ips";
  output_dir := Some "/out"
|}.

(** The same configuration without the key of the pointer. *)
Definition cc_no_pointer : correlation_config := {|
  last_correlation_pointer_file := None;
  malicious_domains_file := Some "/etc/domains";
  malicious_ips_file := Some "/etc/ips";
  output_dir := Some "/out"
|}.

Definition server (key : string) : misp_conf := {|
  conf_domain := "misp.example"; conf_api_key := key;
  conf_args := [("domain", "evil.com"); ("ip-src", "10.0.0.1")]
|}.

Definition cfg (key : string) : config :=
  {| correlation := cc; misp_servers := [server key] |}.

Definition kw (delete : bool) (until : Z) : kwargs := {|
  files := ["/in/a.log"]; start_date := None; end_date := until;
  delete_on_success := delete
|}.

Definition disk : gmap string string :=
  list_to_map [("/var/pointer", "10" +:+ nl);
               ("/etc/domains", "evil.com" +:+ nl +:+ " Other.org " +:+ nl);
               ("/etc/ips", "10.0.0.0/8" +:+ nl +:+ "not an address" +:+ nl
                            +:+ "192.168.1.7" +:+ nl);
               ("/in/a.log", "20 EVIL.com 1.2.3.4" +:+ nl +:+ "30 good.org 10.1.2.3" +:+ nl)].

(** What the run finds in the log, and the documents made of it. *)
Definition found : list match_ :=
  [ Match {| rec_timestamp := 20; queryName := "EVIL.com"; answers := ["1.2.3.4"];
             sourceIp := None; sourceIp2 := None |}
          (Domain "evil.com") QueryName false;
    Match {| rec_timestamp := 30; queryName := "good.org"; answers := ["10.1.2.3"];
             sourceIp := None; sourceIp2 := None |}
          (Ip (Network false 167772160 8)) (Answer 0) false ].

Definition enriched : list document :=
  [Document "20" "EVIL.com"; Document "30" "good.org"].

(** The same disk with a pointer file that holds nothing. *)
Definition blank : world :=
  World (<["/var/pointer" := ""]> disk) {["/in"; "/out"; "/etc"; "/var"]} [].

Definition w0 : world := World disk {["/in"; "/out"; "/etc"; "/var"]} [].

(** A configuration that names no file of indicators. *)
Definition cc_no_files : correlation_config := {|
  last_correlation_pointer_file := Some "/var/pointer";
  malicious_domains_file := None;
  malicious_ips_file := None;
  output_dir := Some "/out"
|}.

(** A reader that gives a falsy result for a file without bytes and
    fails on one that starts with a NUL; in [picky] below it comes with
    servers that reject an empty key when asked for addresses. *)
Definition read_picky (content : option string) : res (option (list string) * bool) :=
  match content with
  | Some "" => Ok (None, false)
  | Some (String "000" _) => Raise (External "cannot decode")
  | _ => read_text content
  end.

Definition picky : Utils := {|
  misp := misp_conf;
  PyMISP := Ok;
  search_domains m := Ok (value <$> held ["domain"] m);
  search_ips m :=
    if decide (conf_api_key m = "")
    then Raise (External "the server rejects the key")
    else Ok (value <$> held ["ip-src"; "ip-dst"] m);
  search_iocs m _ := Ok (held ["domain"; "domain|ip"; "hostname"; "hostname|port";
                               "ip-src"; "ip-src|port"; "ip-dst"; "ip-dst|port";
                               "url"] m);
  ip_network := dotted_network;
  ip_address := dotted_address;
  netloc := authority;
  dumps d := timestamp d +:+ " " +:+ body d;
  now := 0;
  str_datetime := pretty;
  read_file := read_picky;
  parse_rfc3339_ns := parse_instant;
  parse_record := parse_words;
  enrich_logs := enrich_all;
  validIPAddress s := bool_decide (is_Some (ipv4 s));
  getcwd := "/"
|}.

(** A disk with a log that holds nothing. *)
Definition hollow : world := World {["/in/empty.log" := ""]} {["/in"]} [].

(** A disk with a second log, in the minified encoding, that holds a
    record of [EVIL.com] at instant 25, and a [matches.json] left by an
    earlier run. *)
Definition mixed : world :=
  World (<["/in/b.log" := "[25 EVIL.com 9.9.9.9]" +:+ nl]>
           (<["/out/matches.json" := "5 earlier.example" +:+ nl]> disk))
        {["/in"; "/out"; "/etc"; "/var"]} [].

(** A run over both logs. *)
Definition kw_mixed : kwargs := {|
  files := ["/in/a.log"; "/in/b.log"]; start_date := None; end_date := 99;
  delete_on_success := false
|}.

(** What that run finds in the minified log, and the document made of
    it. *)
Definition found_minified : list match_ :=
  [ Match {| rec_timestamp := 25; queryName := "EVIL.com"; answers := ["9.9.9.9"];
             sourceIp := None; sourceIp2 := None |}
          (Domain "evil.com") QueryName true ].

Definition enriched_minified : list document := [Document "25" "EVIL.com"].

(** A server whose domain comes with a space before it. *)
Definition padded_server : misp_conf := {|
  conf_domain := "misp.example"; conf_api_key := "k";
  conf_args := [("domain", " evil.com"); ("ip-src", "10.0.0.1")]
|}.

(** A server with an attribute of two parts that holds one part only. *)
Definition odd_server : misp_conf := {|
  conf_domain := "misp.example"; conf_api_key := "k";
  conf_args := [("domain", "evil.com"); ("domain|ip", "lonely.example")]
|}.

End Sample.

(** ** The vocabulary of the statements *)

(** [a] is written no later than [b]. *)
Definition ascending (a b : document) : Prop :=
  String.le (timestamp a) (timestamp b).

(** The bytes of a sequence of texts written one after the other. *)
Definition joined (texts : list string) : string := foldr String.append "" texts.

(** A command that leaves files and directories as they are. *)
Definition reads_only {A} (m : M A) : Prop :=
  ∀ w, fs (m w).2 = fs w ∧ dirs (m w).2 = dirs w.

(** The two lists of the loop hold what their names say. *)
Definition buckets_apart (totals : list match_ * list match_) : Prop :=
  Forall (λ m, encoding m = false) totals.1
  ∧ Forall (λ m, encoding m = true) totals.2.

(** A command whose effect on the files is within [P], whatever it
    returns. *)
Definition fs_steps (P : relation (gmap string string)) {A} (m : M A) : Prop :=
  ∀ w, P (fs w) (fs (m w).2).

(** [p] is none of the paths [inputs] and lies below none of them. *)
Definition apart_from (inputs : list string) (p : string) : Prop :=
  Forall (λ f, p ≠ f ∧ ¬ Is_true (below f p)) inputs.

(** From [m] to [m'] files have only been removed, and only among the
    [inputs] and what lies below them. *)
Definition shrunk_within (inputs : list string) (m m' : gmap string string) : Prop :=
  m' ⊆ m ∧ ∀ p, apart_from inputs p → m' !! p = m !! p.

(** The arguments that a run may delete. *)
Definition deleted_arguments (kw : kwargs) : list string :=
  if delete_on_success kw then files kw else [].

(** A name that stands for one file wherever the command runs: it is as
    pathlib prints it, starts at the root and has no [..] among its
    components.  Symbolic links apart, two such names that differ are
    two files, which is how the file system of the model tells files
    apart. *)
Definition canonical (p : string) : bool :=
  bool_decide (Path p = p ∧ root p = "/" ∧ ".." ∉ components p).

(** A command that neither reads the world nor changes it: it gives one
    result, in whatever world it runs. *)
Definition constant_cmd {A} (m : M A) : Prop := ∃ r, ∀ w, m w = (r, w).

(** A value that [strip] leaves as it is. *)
Definition clean (v : string) : Prop := Str.strip v = v.

(** The regular files below [d], in the order [rglob] gives them. *)
Definition regular_below (d : string) (w : world) : list string :=
  filter (λ p, is_Some (fs w !! p))
         (filter (λ p, Is_true (below d p))
                 ((map_to_list (fs w)).*1 ++ elements (dirs w))).


(** * Properties *)

(** ** [sorted] *)

Section sorted_facts.
Context {A K : Type} `{EqDecision K} (key : A → K) (lt : K → K → bool).

Local Abbreviation before := (in_order key lt).

Hypothesis lt_asym : ∀ a b, lt a b = true → lt b a = false.
Hypothesis lt_cotrans : ∀ a b c, lt b a = false → lt c b = false → lt c a = false.

Local Instance in_order_trans : Transitive before.
Proof. intros a b c Hab Hbc. unfold in_order in *. eauto. Qed.

Lemma insert_by_perm x l : insert_by key lt x l ≡ₚ x :: l.
Proof.
  induction l as [|y l IH]; simpl; [done|].
  destruct (lt (key y) (key x)); [|done].
  rewrite IH. apply Permutation_swap.
Qed.

Lemma sorted_perm l : sorted key lt l ≡ₚ l.
Proof.
  induction l as [|x l IH]; simpl; [done|].
  by rewrite insert_by_perm, IH.
Qed.

Lemma insert_by_hd x y l :
  before y x → HdRel before y l → HdRel before y (insert_by key lt x l).
Proof.
  intros Hyx Hl. destruct l as [|z l]; simpl; [by constructor|].
  destruct (lt (key z) (key x)); constructor; [by inv Hl|done].
Qed.

Lemma insert_by_sorted x l :
  Sorted before l → Sorted before (insert_by key lt x l).
Proof.
  induction 1 as [|y l Hl IH Hhd]; simpl; [by repeat constructor|].
  destruct (lt (key y) (key x)) eqn:Hlt.
  - constructor; [done|]. apply insert_by_hd; [|done].
    unfold in_order. by apply lt_asym.
  - repeat constructor; done.
Qed.

Lemma sorted_sorted l : StronglySorted before (sorted key lt l).
Proof.
  apply Sorted_StronglySorted; [apply _|].
  induction l as [|x l IH]; simpl; [constructor|by apply insert_by_sorted].
Qed.

Lemma insert_by_stable k x l :
  filter (λ a, key a = k) (insert_by key lt x l)
  = filter (λ a, key a = k) (x :: l).
Proof.
  induction l as [|y l IH]; simpl; [done|].
  destruct (lt (key y) (key x)) eqn:Hlt; [|done].
  rewrite filter_cons, IH, !filter_cons.
  destruct (decide (key y = k)) as [Hy|Hy], (decide (key x = k)) as [Hx|Hx];
    try done.
  apply lt_asym in Hlt as Hxy. congruence.
Qed.

Lemma sorted_stable k l :
  filter (λ a, key a = k) (sorted key lt l) = filter (λ a, key a = k) l.
Proof.
  induction l as [|x l IH]; simpl; [done|].
  by rewrite insert_by_stable, !filter_cons, IH.
Qed.

Lemma sorted_last_max l d x :
  last (sorted key lt l) = Some d → x ∈ l → before x d.
Proof.
  intros [l' Hl']%last_Some Hx.
  pose proof (sorted_sorted l) as Hs. rewrite Hl' in Hs.
  rewrite <-(sorted_perm l), Hl' in Hx.
  apply elem_of_app in Hx as [Hx|Hx%list_elem_of_singleton].
  - eapply StronglySorted_app_1_elem_of; [done..|]. by apply list_elem_of_singleton.
  - subst x. unfold in_order. destruct (lt (key d) (key d)) eqn:E; [|done].
    by rewrite (lt_asym _ _ E) in E.
Qed.

Lemma sorted_last_elem l d : last (sorted key lt l) = Some d → d ∈ l.
Proof.
  intros Hd. rewrite <-(sorted_perm l). by apply last_Some_elem_of.
Qed.

Lemma sorted_nil_iff l : sorted key lt l = [] ↔ l = [].
Proof.
  split; [|by intros ->].
  intros E. apply Permutation_nil_r. by rewrite <-E, sorted_perm.
Qed.
End sorted_facts.

(** ** The order of timestamps *)

Lemma lt_false_le a b : Str.lt b a = false ↔ String.le a b.
Proof.
  unfold Str.lt, String.le, String.ltb, String.leb.
  rewrite (String.compare_antisym a b).
  destruct (b ?= a)%string; simpl; naive_solver.
Qed.

Lemma lt_asym a b : Str.lt a b = true → Str.lt b a = false.
Proof.
  unfold Str.lt, String.ltb. rewrite (String.compare_antisym b a).
  by destruct (a ?= b)%string.
Qed.

Lemma lt_cotrans a b c :
  Str.lt b a = false → Str.lt c b = false → Str.lt c a = false.
Proof. rewrite !lt_false_le. apply transitivity. Qed.

Lemma lt_le a b : Str.lt a b = true → String.le a b.
Proof. intros H. by apply lt_false_le, lt_asym. Qed.

Lemma lt_trans a b c : Str.lt a b = true → Str.lt b c = true → Str.lt a c = true.
Proof.
  intros Hab Hbc. destruct (Str.lt a c) eqn:Hac; [done|].
  apply lt_false_le in Hac.
  assert (String.le a b) as Hle by by apply lt_le.
  assert (c = a) as -> by (apply (anti_symm String.le); [done|];
    etrans; [exact Hle|by apply lt_le]).
  apply lt_asym in Hab. congruence.
Qed.

(** ** Strings *)

Lemma app_empty_r s : s +:+ "" = s.
Proof.
  induction s as [|c s IH]; [done|].
  change (String c (s +:+ "") = String c s). by rewrite IH.
Qed.

Lemma app_assoc_str a b c : (a +:+ b) +:+ c = a +:+ (b +:+ c).
Proof.
  induction a as [|x a IH]; [done|].
  change (String x ((a +:+ b) +:+ c) = String x (a +:+ (b +:+ c))). by rewrite IH.
Qed.

(** ** Commands *)

Lemma bind_unfold {A B} (m : M A) (f : A → M B) w :
  (m ≫= f) w = match m w with
               | (Ok a, w') => f a w'
               | (Raise e, w') => (Raise e, w')
               end.
Proof. done. Qed.

Lemma bind_ok {A B} (m : M A) (f : A → M B) w a w' :
  m w = (Ok a, w') → (m ≫= f) w = f a w'.
Proof. intros H. by rewrite bind_unfold, H. Qed.

Lemma bind_raise {A B} (m : M A) (f : A → M B) w e w' :
  m w = (Raise e, w') → (m ≫= f) w = (Raise e, w').
Proof. intros H. by rewrite bind_unfold, H. Qed.

Lemma bind_inv {A B} (m : M A) (f : A → M B) w r w' :
  (m ≫= f) w = (r, w') →
  (∃ a w1, m w = (Ok a, w1) ∧ f a w1 = (r, w'))
  ∨ (∃ e, m w = (Raise e, w') ∧ r = Raise e).
Proof.
  rewrite bind_unfold. destruct (m w) as [[a|e] w1]; [by eauto|].
  intros [= <- <-]. eauto.
Qed.

Lemma reads_only_ret {A} (a : A) : reads_only (mret a).
Proof. done. Qed.
Lemma reads_only_raise {A} e : reads_only (@raise A e).
Proof. done. Qed.
Lemma reads_only_lift {A} (r : res A) : reads_only (lift r).
Proof. done. Qed.
Lemma reads_only_emit e : reads_only (emit e).
Proof. done. Qed.
Lemma reads_only_is_file p : reads_only (is_file p).
Proof. done. Qed.
Lemma reads_only_rglob d : reads_only (rglob d).
Proof. done. Qed.
Lemma reads_only_item {A} k (o : option A) : reads_only (item k o).
Proof. by destruct o. Qed.
Lemma reads_only_bound {A} v (o : option A) : reads_only (bound v o).
Proof. by destruct o. Qed.

Lemma reads_only_bind {A B} (m : M A) (f : A → M B) :
  reads_only m → (∀ a, reads_only (f a)) → reads_only (m ≫= f).
Proof.
  intros Hm Hf w. rewrite bind_unfold. specialize (Hm w).
  destruct (m w) as [[a|e] w1]; simpl in *; [|done].
  destruct (Hf a w1) as [-> ->]. done.
Qed.

Lemma reads_only_for_each {A S} (body : S → A → M S) l s :
  (∀ s x, reads_only (body s x)) → reads_only (for_each body l s).
Proof.
  intros Hb. revert s. induction l as [|x l IH]; intros s; simpl.
  - apply reads_only_ret.
  - apply reads_only_bind; [apply Hb|apply IH].
Qed.

Create HintDb reads discriminated.
#[local] Hint Resolve reads_only_ret reads_only_raise reads_only_lift
  reads_only_emit reads_only_is_file reads_only_rglob reads_only_item
  reads_only_bound : reads.
#[local] Hint Extern 2 (reads_only (_ ≫= _)) =>
  apply reads_only_bind; [|intros ?] : reads.
#[local] Hint Extern 2 (reads_only (for_each _ _ _)) =>
  apply reads_only_for_each; intros ? ? : reads.
#[local] Hint Extern 3 (reads_only (match ?x with _ => _ end)) =>
  destruct x : reads.
#[local] Hint Extern 3 (reads_only (if ?x then _ else _)) =>
  destruct x : reads.

Section reading.
Context {U : Utils}.

Lemma reads_only_read p : reads_only (read p).
Proof. done. Qed.
Lemma reads_only_iterate it : reads_only (iterate it).
Proof. by destruct it. Qed.
Hint Resolve reads_only_read reads_only_iterate : reads.

Lemma reads_only_determine_start_date cc kw :
  reads_only (determine_start_date cc kw).
Proof. unfold determine_start_date. auto 10 with reads. Qed.

Lemma reads_only_connect servers : reads_only (connect servers).
Proof. unfold connect. auto 10 with reads. Qed.

Lemma reads_only_build_domain_attributes cc conns :
  reads_only (build_domain_attributes cc conns).
Proof. unfold build_domain_attributes. auto 10 with reads. Qed.

Lemma reads_only_load_networks prep l : reads_only (load_networks prep l).
Proof. unfold load_networks. auto 10 with reads. Qed.
Hint Resolve reads_only_load_networks : reads.

Lemma reads_only_build_ip_attributes cc conns :
  reads_only (build_ip_attributes cc conns).
Proof. unfold build_ip_attributes. auto 10 with reads. Qed.

Lemma reads_only_correlate_path sd ed ds ips totals p :
  reads_only (correlate_path sd ed ds ips totals p).
Proof. unfold correlate_path. auto 10 with reads. Qed.
Hint Resolve reads_only_correlate_path : reads.

Lemma reads_only_correlate_input kw sd ds ips totals file :
  delete_on_success kw = false →
  reads_only (correlate_input kw sd ds ips totals file).
Proof. intros Hd. unfold correlate_input. rewrite Hd. auto 12 with reads. Qed.

Lemma reads_only_gather cfg kw :
  delete_on_success kw = false → reads_only (gather cfg kw).
Proof.
  intros Hd. unfold gather, gather_from, correlate_files.
  pose proof (reads_only_correlate_input kw) as Hin.
  pose proof reads_only_determine_start_date.
  pose proof reads_only_connect.
  pose proof reads_only_build_domain_attributes.
  pose proof reads_only_build_ip_attributes.
  auto 12 with reads.
Qed.
End reading.

(** ** Writing *)

Lemma write_all {A} (f : A → string) p (l : list A) w s :
  fs w !! p = Some s →
  for_each (λ _ x, write p (f x)) l tt w
  = (Ok tt, World (<[p := s +:+ joined (f <$> l)]> (fs w)) (dirs w)
                  (trace w ++ (WriteText p ∘ f <$> l))).
Proof.
  revert w s. induction l as [|x l IH]; intros [m d tr] s Hs; simpl in *.
  - unfold mret, M_ret. by rewrite app_empty_r, insert_id, app_nil_r.
  - rewrite bind_unfold. unfold write at 1. simpl. rewrite Hs. simpl.
    erewrite IH by apply lookup_insert_eq. simpl.
    by rewrite insert_insert_eq, app_assoc_str, <-app_assoc.
Qed.

Section persisting.
Context {U : Utils}.

Lemma write_matches_ok cc batch w dir :
  output_dir cc = Some dir →
  write_matches cc batch w
  = (Ok (sorted timestamp Str.lt batch),
     World (<[path_join dir "matches.json" :=
                default "" (fs w !! path_join dir "matches.json")
                +:+ joined (json_line <$> sorted timestamp Str.lt batch)]> (fs w))
           (dirs w)
           (trace w ++ OpenFile (path_join dir "matches.json") AppendTo
              :: (WriteText (path_join dir "matches.json") ∘ json_line
                    <$> sorted timestamp Str.lt batch))).
Proof.
  intros Hdir. unfold write_matches. rewrite Hdir. simpl.
  rewrite bind_unfold. simpl. rewrite bind_unfold. unfold open_append at 1.
  rewrite bind_unfold.
  erewrite (write_all json_line) by apply lookup_insert_eq. simpl.
  by rewrite insert_insert_eq, <-app_assoc.
Qed.

Lemma write_matches_no_dir cc batch w :
  output_dir cc = None →
  write_matches cc batch w = (Raise (KeyError "output_dir"), w).
Proof. intros Hdir. unfold write_matches. by rewrite Hdir. Qed.

Lemma keep_last_timestamp_none cc w : keep_last_timestamp cc [] w = (Ok tt, w).
Proof. done. Qed.

Lemma keep_last_timestamp_some cc to_output newest pointer w :
  last to_output = Some newest →
  last_correlation_pointer_file cc = Some pointer →
  keep_last_timestamp cc to_output w
  = (Ok tt, World (<[pointer := Str.line (timestamp newest)]> (fs w)) (dirs w)
                  (trace w ++ [OpenFile pointer Truncate;
                               WriteText pointer (Str.line (timestamp newest))])).
Proof.
  intros Hlast Hp. unfold keep_last_timestamp. rewrite Hlast, Hp. simpl.
  rewrite bind_unfold. simpl. rewrite bind_unfold. unfold write_generic, write. simpl.
  rewrite lookup_insert_eq. simpl.
  by rewrite insert_insert_eq, <-app_assoc.
Qed.

Lemma enrich_inv conns totals w r w' :
  enrich conns totals w = (r, w') → w' = w.
Proof.
  unfold enrich. rewrite bind_unfold. unfold lift at 1.
  destruct (enrich_logs totals.1 conns false); [|by intros [= _ <-]].
  rewrite bind_unfold. unfold lift at 1.
  destruct (enrich_logs totals.2 conns true); by intros [= _ <-].
Qed.

Lemma correlate_unfold cfg kw w conns totals w1 batch w2 :
  gather cfg kw w = (Ok (conns, totals), w1) →
  enrich conns totals w1 = (Ok batch, w2) →
  correlate cfg kw w = output (correlation cfg) batch w1.
Proof.
  intros Hg He. apply enrich_inv in He as Hw. subst w2.
  unfold correlate. rewrite (bind_ok _ _ _ _ _ Hg). simpl.
  by rewrite (bind_ok _ _ _ _ _ He).
Qed.

(** The sorted batch, on its own. *)
Lemma to_output_sorted (batch : list document) :
  StronglySorted ascending (sorted timestamp Str.lt batch).
Proof.
  pose proof (sorted_sorted timestamp Str.lt lt_asym lt_cotrans batch) as Hs.
  induction Hs as [|d l Hl IH Hd]; constructor; [done|].
  eapply Forall_impl; [exact Hd|]. intros b Hb. by apply lt_false_le.
Qed.
End persisting.


(** ** The pointer of the last correlation *)

Section pointer.
Context {U : Utils}.

(** C1.  A run whose enriched batch is empty leaves the pointer file with
    the bytes it had when the output began, and with the bytes it had when
    the run began if nothing is deleted on success: all that the output
    does is to open [matches.json] for appending.  The pointer is taken
    to exist already in the one configuration where it is that very
    file. *)
Theorem empty_batch_leaves_pointer cfg kw w conns totals w1 w2 pointer :
  last_correlation_pointer_file (correlation cfg) = Some pointer →
  gather cfg kw w = (Ok (conns, totals), w1) →
  enrich conns totals w1 = (Ok [], w2) →
  (∀ dir, output_dir (correlation cfg) = Some dir →
          pointer = path_join dir "matches.json" → is_Some (fs w1 !! pointer)) →
  fs (correlate cfg kw w).2 !! pointer = fs w1 !! pointer
  ∧ (delete_on_success kw = false →
     fs (correlate cfg kw w).2 !! pointer = fs w !! pointer)
  ∧ trace (correlate cfg kw w).2
    = trace w1 ++ match output_dir (correlation cfg) with
                  | Some dir => [OpenFile (path_join dir "matches.json") AppendTo]
                  | None => []
                  end.
Proof.
  intros Hp Hg He Hsink. rewrite (correlate_unfold _ _ _ _ _ _ _ _ Hg He).
  assert (fs w1 = fs w → fs w1 !! pointer = fs w !! pointer) as Hsame by by intros ->.
  assert (delete_on_success kw = false → fs w1 = fs w) as Hro.
  { intros Hd. pose proof (reads_only_gather cfg kw Hd w) as [Hfs _].
    by rewrite Hg in Hfs. }
  unfold output. destruct (output_dir (correlation cfg)) as [dir|] eqn:Hdir.
  - rewrite (bind_ok _ _ _ _ _ (write_matches_ok _ _ _ _ Hdir)). simpl.
    assert (<[path_join dir "matches.json" :=
                default "" (fs w1 !! path_join dir "matches.json") +:+ ""]> (fs w1)
            !! pointer = fs w1 !! pointer) as Hkeep.
    { destruct (decide (pointer = path_join dir "matches.json")) as [Heq|Hne].
      - destruct (Hsink dir eq_refl Heq) as [bytes Hb]. subst pointer.
        by rewrite lookup_insert_eq, Hb, app_empty_r.
      - by rewrite lookup_insert_ne. }
    split_and!; [done| |done]. intros Hd. rewrite Hkeep. auto.
  - rewrite (bind_raise _ _ _ _ _ (write_matches_no_dir _ _ _ Hdir)). simpl.
    rewrite app_nil_r. split_and!; auto.
Qed.

(** C2.  A run whose enriched batch is not empty ends with the pointer
    file holding one line and nothing else: its bytes are the timestamp
    of a document of the batch that no timestamp of the batch exceeds,
    followed by a newline.  The file is opened afresh and that line is
    the one text written to it. *)
Theorem nonempty_batch_overwrites_pointer
    cfg kw w conns totals w1 w2 batch dir pointer :
  output_dir (correlation cfg) = Some dir →
  last_correlation_pointer_file (correlation cfg) = Some pointer →
  gather cfg kw w = (Ok (conns, totals), w1) →
  enrich conns totals w1 = (Ok batch, w2) →
  batch ≠ [] →
  ∃ newest w',
    newest ∈ batch
    ∧ (∀ d, d ∈ batch → ascending d newest)
    ∧ correlate cfg kw w = (Ok tt, w')
    ∧ fs w' !! pointer = Some (timestamp newest +:+ String "010" "")
    ∧ ∃ before, trace w' = before ++ [OpenFile pointer Truncate;
                                       WriteText pointer
                                         (timestamp newest +:+ String "010" "")].
Proof.
  intros Hdir Hp Hg He Hne. rewrite (correlate_unfold _ _ _ _ _ _ _ _ Hg He).
  destruct (last (sorted timestamp Str.lt batch)) as [newest|] eqn:Hlast.
  2: { apply last_None, sorted_nil_iff in Hlast. done. }
  exists newest. eexists. split_and!.
  - by eapply sorted_last_elem.
  - intros d Hd. apply lt_false_le.
    eapply (sorted_last_max timestamp Str.lt lt_asym lt_cotrans); done.
  - unfold output. rewrite (bind_ok _ _ _ _ _ (write_matches_ok _ _ _ _ Hdir)).
    apply (keep_last_timestamp_some _ _ _ _ _ Hlast Hp).
  - simpl. apply lookup_insert_eq.
  - simpl. eexists. reflexivity.
Qed.

(** C3.  The documents appended to [matches.json] are the batch in
    ascending order of timestamp, and documents of equal timestamp stay
    in the order the batch had them; a batch with timestamps T3, T1, T2,
    where T1 < T2 < T3, is written as T1, T2, T3. *)
Theorem matches_written_sorted_stable cc batch w dir :
  output_dir cc = Some dir →
  ∃ to_output w',
    write_matches cc batch w = (Ok to_output, w')
    ∧ trace w' = trace w ++ OpenFile (path_join dir "matches.json") AppendTo
                   :: (WriteText (path_join dir "matches.json") ∘ json_line
                         <$> to_output)
    ∧ fs w' !! path_join dir "matches.json"
      = Some (default "" (fs w !! path_join dir "matches.json")
              +:+ joined (json_line <$> to_output))
    ∧ StronglySorted ascending to_output
    ∧ to_output ≡ₚ batch
    ∧ (∀ t, filter (λ d, timestamp d = t) to_output
            = filter (λ d, timestamp d = t) batch)
    ∧ (∀ d1 d2 d3, batch = [d3; d1; d2] →
         Str.lt (timestamp d1) (timestamp d2) = true →
         Str.lt (timestamp d2) (timestamp d3) = true →
         to_output = [d1; d2; d3]).
Proof.
  intros Hdir. eexists _, _. split; [by apply write_matches_ok|]. simpl.
  split_and!; [done|apply lookup_insert_eq|apply to_output_sorted| | |].
  - apply sorted_perm.
  - intros t. apply sorted_stable, lt_asym.
  - intros d1 d2 d3 -> H12 H23. simpl.
    rewrite (lt_asym _ _ H12). simpl.
    rewrite (lt_trans _ _ _ H12 H23). simpl. by rewrite H23.
Qed.

End pointer.


Lemma empty_batch_leaves_pointer_witness :
  let cfg := Sample.cfg "k" in
  let kw := Sample.kw false 5 in
  let w1 := (gather (U := Sample.utils) cfg kw Sample.w0).2 in
  gather (U := Sample.utils) cfg kw Sample.w0
    = (Ok ([Sample.server "k"], ([], [])), w1)
  ∧ enrich (U := Sample.utils) [Sample.server "k"] ([], []) w1 = (Ok [], w1)
  ∧ fs (correlate (U := Sample.utils) cfg kw Sample.w0).2 !! "/var/pointer"
    = fs Sample.w0 !! "/var/pointer".
Proof.
  intros cfg kw w1.
  assert (gather (U := Sample.utils) cfg kw Sample.w0
          = (Ok ([Sample.server "k"], ([], [])), w1)) as Hg
    by (vm_compute; reflexivity).
  assert (enrich (U := Sample.utils) [Sample.server "k"] ([], []) w1 = (Ok [], w1))
    as He by (vm_compute; reflexivity).
  assert (fs w1 !! "/var/pointer" = Some ("10" +:+ Sample.nl)) as Hp
    by (vm_compute; reflexivity).
  split_and!; [exact Hg|exact He|].
  exact (proj1 (proj2 (empty_batch_leaves_pointer (U := Sample.utils)
           cfg kw Sample.w0 _ _ w1 w1 "/var/pointer" eq_refl Hg He
           (λ _ _ _, mk_is_Some _ _ Hp))) eq_refl).
Defined.

Lemma nonempty_batch_overwrites_pointer_witness :
  let cfg := Sample.cfg "k" in
  let kw := Sample.kw false 99 in
  let w1 := (gather (U := Sample.utils) cfg kw Sample.w0).2 in
  gather (U := Sample.utils) cfg kw Sample.w0
    = (Ok ([Sample.server "k"], (Sample.found, [])), w1)
  ∧ enrich (U := Sample.utils) [Sample.server "k"] (Sample.found, []) w1
    = (Ok Sample.enriched, w1)
  ∧ ∃ newest w',
      newest ∈ Sample.enriched
      ∧ (∀ d, d ∈ Sample.enriched → ascending d newest)
      ∧ correlate (U := Sample.utils) cfg kw Sample.w0 = (Ok tt, w')
      ∧ fs w' !! "/var/pointer" = Some (timestamp newest +:+ String "010" "")
      ∧ fs w' !! "/var/pointer" = Some (String "3" (String "0" (String "010" ""))).
Proof.
  intros cfg kw w1.
  assert (gather (U := Sample.utils) cfg kw Sample.w0
          = (Ok ([Sample.server "k"], (Sample.found, [])), w1)) as Hg
    by (vm_compute; reflexivity).
  assert (enrich (U := Sample.utils) [Sample.server "k"] (Sample.found, []) w1
          = (Ok Sample.enriched, w1)) as He by (vm_compute; reflexivity).
  split_and!; [exact Hg|exact He|].
  destruct (nonempty_batch_overwrites_pointer (U := Sample.utils)
              cfg kw Sample.w0 _ _ w1 w1 Sample.enriched "/out" "/var/pointer"
              eq_refl eq_refl Hg He (λ H, nil_cons (eq_sym H)))
    as (newest & w' & Hin & Hmax & Hrun & Hbytes & _).
  exists newest, w'. split_and!; [exact Hin|exact Hmax|exact Hrun|exact Hbytes|].
  assert (fs (correlate (U := Sample.utils) cfg kw Sample.w0).2 !! "/var/pointer"
          = Some (String "3" (String "0" (String "010" "")))) as Hthirty
    by (vm_compute; reflexivity).
  exact (eq_trans (f_equal (λ r, fs r.2 !! "/var/pointer") (eq_sym Hrun)) Hthirty).
Defined.

Lemma matches_written_sorted_stable_witness :
  let d1 := Document "2024-01-01T00:00:01Z" "a" in
  let d2 := Document "2024-01-01T00:00:02Z" "b" in
  let d3 := Document "2024-01-01T00:00:03Z" "c" in
  output_dir Sample.cc = Some "/out"
  ∧ ∃ w', write_matches (U := Sample.utils) Sample.cc [d3; d1; d2] Sample.w0
          = (Ok [d1; d2; d3], w').
Proof.
  intros d1 d2 d3. split; [reflexivity|].
  destruct (matches_written_sorted_stable (U := Sample.utils) Sample.cc
              [d3; d1; d2] Sample.w0 "/out" eq_refl)
    as (to_output & w' & Hrun & _ & _ & _ & _ & _ & Hex).
  exists w'. rewrite Hrun. f_equal. f_equal.
  apply (Hex d1 d2 d3 eq_refl); vm_compute; reflexivity.
Defined.


(** ** The window *)

Section window.
Context {U : Utils}.

Lemma correlate_record_origin s e ds ns tag r m :
  m ∈ correlate_record s e ds ns tag r →
  matched_record m = r ∧ encoding m = tag ∧ s ≤ rec_timestamp r < e.
Proof.
  unfold correlate_record.
  destruct (_ || _) eqn:Hout; [by intros ?%elem_of_nil|].
  apply orb_false_iff in Hout as [?%Z.ltb_ge ?%Z.leb_gt].
  intros [Hm|Hm]%elem_of_app.
  - destruct (matchesDomain _ _); [|by apply elem_of_nil in Hm].
    apply list_elem_of_singleton in Hm as ->. simpl. split_and!; [done..|lia|lia].
  - apply list_elem_of_omap in Hm as (f & _ & Hf).
    destruct (ip_address _); simpl in Hf; [|done].
    destruct (matchesIp _ _); simpl in Hf; [|done].
    injection Hf as <-. simpl. split_and!; [done..|lia|lia].
Qed.

Lemma correlate_file_origin lines s e ds ns tag m :
  m ∈ correlate_file lines s e ds ns tag →
  encoding m = tag ∧ s ≤ rec_timestamp (matched_record m) < e.
Proof.
  unfold correlate_file. rewrite list_elem_of_In, in_flat_map.
  intros (r & _ & Hm%list_elem_of_In).
  apply correlate_record_origin in Hm as (-> & ? & ?). done.
Qed.

(** C5.  Every match that [correlate_file] returns comes from a record
    whose timestamp is in the window, its start included and its end
    excluded; a record before the start, or at or after the end, yields
    no match whatever the indicators are, and so does one at the end. *)
Theorem matches_lie_in_window file_iter start_date end_date domains ips is_minified :
  Forall (λ m, start_date ≤ rec_timestamp (matched_record m) < end_date)
         (correlate_file file_iter start_date end_date domains ips is_minified)
  ∧ (∀ r, rec_timestamp r < start_date ∨ end_date ≤ rec_timestamp r →
          correlate_record start_date end_date domains ips is_minified r = [])
  ∧ (∀ r, rec_timestamp r = end_date →
          correlate_record start_date end_date domains ips is_minified r = []).
Proof.
  assert (∀ r, rec_timestamp r < start_date ∨ end_date ≤ rec_timestamp r →
               correlate_record start_date end_date domains ips is_minified r = [])
    as Hout.
  { intros r Hr. unfold correlate_record.
    destruct (_ || _) eqn:Hin; [done|].
    apply orb_false_iff in Hin as [?%Z.ltb_ge ?%Z.leb_gt]. lia. }
  split_and!; [|done|].
  - apply Forall_forall. intros m Hm. by apply correlate_file_origin in Hm as [_ ?].
  - intros r Hr. apply Hout. lia.
Qed.

End window.

Lemma matches_lie_in_window_witness :
  let r := {| rec_timestamp := 99; queryName := "evil.com"; answers := ["10.1.2.3"];
              sourceIp := None; sourceIp2 := None |} in
  rec_timestamp r = 99
  ∧ correlate_record (U := Sample.utils) 10 99 {["evil.com"]}
      {[Network false 167772160 8]} false r = [].
Proof.
  intros r. split; [reflexivity|].
  exact (proj2 (proj2 (matches_lie_in_window (U := Sample.utils) [] 10 99
                         {["evil.com"]} {[Network false 167772160 8]} false))
               r eq_refl).
Defined.

(** ** The indicators *)

Section indicators.
Context {U : Utils}.

Lemma load_networks_from prep l acc w :
  for_each (λ ip_attributes attribute,
              match ip_network (prep attribute) with
              | Some network => mret (ip_attributes ++ [network])
              | None =>
                  emit (Log WARNING ("Invalid malicious IP value " +:+ attribute));;
                  mret ip_attributes
              end) l acc w
  = (Ok (acc ++ omap (ip_network ∘ prep) l),
     World (fs w) (dirs w) (trace w ++ invalid_ip_warnings prep l)).
Proof.
  revert acc w. induction l as [|a l IH]; intros acc [m d tr]; simpl.
  - unfold mret, M_ret. by rewrite !app_nil_r.
  - rewrite bind_unfold. unfold invalid_ip_warnings. rewrite filter_cons.
    destruct (ip_network (prep a)) as [n|] eqn:Hn.
    + rewrite decide_False by done. simpl. rewrite IH. simpl.
      by rewrite <-app_assoc.
    + rewrite decide_True by done. rewrite bind_unfold. simpl. rewrite IH. simpl.
      by rewrite <-app_assoc.
Qed.

Lemma load_networks_ok prep l w :
  load_networks prep l w
  = (Ok (omap (ip_network ∘ prep) l),
     World (fs w) (dirs w) (trace w ++ invalid_ip_warnings prep l)).
Proof. unfold load_networks. by rewrite load_networks_from. Qed.

(** C7.  When the networks are read from the file of addresses, each
    line is stripped and parsed; the lines that parse are all kept, in
    order, each of the others is logged as a warning and dropped, and the
    build ends normally with the files as they were.  The same holds for
    the values of a server.  *)
Theorem malformed_ip_lines_are_dropped cc conns w :
  (∀ p lines tag,
     truthy (malicious_ips_file cc) = Some p →
     read_file (fs w !! p) = Ok (Some lines, tag) →
     build_ip_attributes cc conns w
     = (Ok (omap (ip_network ∘ Str.strip) lines),
        World (fs w) (dirs w) (trace w ++ invalid_ip_warnings Str.strip lines))
     ∧ (∀ line n, line ∈ lines → ip_network (Str.strip line) = Some n →
                  n ∈ omap (ip_network ∘ Str.strip) lines))
  ∧ (∀ misp values,
       truthy (malicious_ips_file cc) = None →
       last conns = Some misp →
       search_ips misp = Ok values →
       build_ip_attributes cc conns w
       = (Ok (omap ip_network values),
          World (fs w) (dirs w) (trace w ++ invalid_ip_warnings id values))).
Proof.
  split.
  - intros p lines tag Hp Hread. split.
    + unfold build_ip_attributes. rewrite Hp. rewrite bind_unfold.
      unfold read at 1. rewrite Hread. simpl. rewrite bind_unfold. simpl.
      apply load_networks_ok.
    + intros line n Hline Hn. apply list_elem_of_omap. eauto.
  - intros misp values Hp Hlast Hsearch.
    unfold build_ip_attributes. rewrite Hp, Hlast. simpl.
    rewrite bind_unfold. simpl. rewrite bind_unfold. unfold lift at 1.
    rewrite Hsearch. apply load_networks_ok.
Qed.

End indicators.

Lemma malformed_ip_lines_are_dropped_witness :
  truthy (malicious_ips_file Sample.cc) = Some "/etc/ips"
  ∧ read_file (Utils := Sample.utils) (fs Sample.w0 !! "/etc/ips")
    = Ok (Some ["10.0.0.0/8"; "not an address"; "192.168.1.7"], false)
  ∧ build_ip_attributes (U := Sample.utils) Sample.cc [] Sample.w0
    = (Ok [Network false 167772160 8; Network false 3232235783 32],
       World Sample.disk (dirs Sample.w0)
             [Log WARNING "Invalid malicious IP value not an address"]).
Proof.
  assert (read_file (Utils := Sample.utils) (fs Sample.w0 !! "/etc/ips")
          = Ok (Some ["10.0.0.0/8"; "not an address"; "192.168.1.7"], false)) as Hread
    by (vm_compute; reflexivity).
  split_and!; [reflexivity|exact Hread|].
  rewrite (proj1 (proj1 (malformed_ip_lines_are_dropped (U := Sample.utils)
                           Sample.cc [] Sample.w0) "/etc/ips" _ false eq_refl Hread)).
  vm_compute. reflexivity.
Defined.


(** ** The start of the window *)

Section start.
Context {U : Utils}.

(** A pointer that is configured and yields no line leaves [start_date]
    unassigned: the run stops at its first use, before anything is
    logged. *)
Lemma pointer_without_line_aborts cfg kw w p tag :
  start_date kw = None →
  last_correlation_pointer_file (correlation cfg) = Some p →
  read_file (fs w !! p) = Ok (Some [], tag) →
  correlate cfg kw w = (Raise (UnboundLocalError "start_date"), w).
Proof.
  intros Hs Hp Hread. unfold correlate, gather, determine_start_date.
  rewrite Hs, Hp. rewrite !bind_unfold. unfold read. by rewrite Hread.
Qed.

(** C8, as amended.  Without a start date and without the key of the
    pointer in the configuration, the window starts now: nothing is
    logged but the message of line 158 and the run goes on.  With the
    key, the window starts at what the first line of the pointer parses
    to. *)
Theorem window_start_without_start_date cfg kw w :
  start_date kw = None →
  (last_correlation_pointer_file (correlation cfg) = None →
   determine_start_date (correlation cfg) kw w = (Ok (Some now), w)
   ∧ gather cfg kw w
     = gather_from cfg kw now
         (World (fs w) (dirs w) (trace w ++ [parsing_alerts now (end_date kw)])))
  ∧ (∀ p line rest tag t,
       last_correlation_pointer_file (correlation cfg) = Some p →
       read_file (fs w !! p) = Ok (Some (line :: rest), tag) →
       parse_rfc3339_ns line = Ok t →
       determine_start_date (correlation cfg) kw w = (Ok (Some t), w)
       ∧ gather cfg kw w
         = gather_from cfg kw t
             (World (fs w) (dirs w) (trace w ++ [parsing_alerts t (end_date kw)]))).
Proof.
  intros Hs. split.
  - intros Hp. unfold gather, determine_start_date. rewrite Hs, Hp. done.
  - intros p line rest tag t Hp Hread Ht.
    assert (determine_start_date (correlation cfg) kw w = (Ok (Some t), w)) as Hd.
    { unfold determine_start_date. rewrite Hs, Hp. rewrite bind_unfold.
      unfold read. rewrite Hread. simpl. rewrite bind_unfold. simpl.
      rewrite bind_unfold. unfold lift. by rewrite Ht. }
    split; [done|]. unfold gather. by rewrite (bind_ok _ _ _ _ _ Hd).
Qed.

End start.

Lemma window_start_without_start_date_witness :
  let cfg := {| correlation := Sample.cc_no_pointer; misp_servers := [] |} in
  start_date (Sample.kw false 99) = None
  ∧ last_correlation_pointer_file (correlation cfg) = None
  ∧ determine_start_date (U := Sample.utils) (correlation cfg) (Sample.kw false 99) Sample.w0
    = (Ok (Some 0), Sample.w0).
Proof.
  intros cfg. split_and!; [reflexivity..|].
  exact (proj1 (proj1 (window_start_without_start_date (U := Sample.utils)
                         cfg (Sample.kw false 99) Sample.w0 eq_refl) eq_refl)).
Defined.

(** Against C8 as first stated: the pointer is configured, no start date
    is given and the pointer file holds nothing.  The run does not fall
    back to the present instant: it stops with an exception, having
    logged no warning. *)
Lemma blank_pointer_aborts_run :
  start_date (Sample.kw false 99) = None
  ∧ fs Sample.blank !! "/var/pointer" = Some ""
  ∧ correlate (U := Sample.utils) (Sample.cfg "k") (Sample.kw false 99) Sample.blank
    = (Raise (UnboundLocalError "start_date"), Sample.blank).
Proof. split_and!; vm_compute; reflexivity. Qed.

(** ** The domains *)

Lemma elem_of_list_set l d : d ∈ list_set l ↔ d ∈ l.
Proof. unfold list_set. by rewrite elem_of_elements, elem_of_list_to_set. Qed.

Lemma NoDup_list_set l : NoDup (list_set l).
Proof. unfold list_set. apply NoDup_elements. Qed.

Section domains.
Context {U : Utils}.

Lemma search_all_domains conns valuess acc w :
  Forall2 (λ misp values, search_domains misp = Ok values) conns valuess →
  for_each (λ domain_attributes misp,
              attributes ← lift (search_domains misp);
              mret (domain_attributes ++ attributes)) conns acc w
  = (Ok (acc ++ concat valuess), w).
Proof.
  intros Hall. revert acc. induction Hall as [|misp values conns valuess Hs _ IH];
    intros acc; simpl.
  - unfold mret, M_ret. by rewrite app_nil_r.
  - rewrite bind_unfold. rewrite bind_unfold. unfold lift at 1. rewrite Hs. simpl.
    rewrite IH. by rewrite <-app_assoc.
Qed.

Lemma matchesDomain_folds (l : list string) name :
  matchesDomain (list_to_set l) name = true
  ↔ ∃ d, d ∈ l ∧ Str.lower d = Str.lower name.
Proof.
  unfold matchesDomain. rewrite bool_decide_eq_true, elem_of_map.
  split.
  - intros (d & Hd & Hin%elem_of_list_to_set). eauto.
  - intros (d & Hin & Hd). exists d. by rewrite elem_of_list_to_set.
Qed.

(** C6, as amended.  The domains read from the file are stripped of the
    white space around them and de-duplicated, and keep the case of their
    letters: the build folds nothing to lowercase.  Those of the servers
    are taken as they are and de-duplicated.  Matching, as the spec has
    it, is case-insensitive all the same: the indicator [evil.com]
    matches the query [EVIL.com]. *)
Theorem domains_stripped_deduplicated_case_kept cc conns w :
  (∀ p lines tag,
     truthy (malicious_domains_file cc) = Some p →
     read_file (fs w !! p) = Ok (Some lines, tag) →
     ∃ ds, build_domain_attributes cc conns w = (Ok ds, w)
           ∧ NoDup ds
           ∧ (∀ d, d ∈ ds ↔ d ∈ Str.strip <$> lines)
           ∧ ("evil.com" ∈ Str.strip <$> lines →
              matchesDomain (list_to_set ds) "EVIL.com" = true))
  ∧ (∀ valuess,
       truthy (malicious_domains_file cc) = None →
       Forall2 (λ misp values, search_domains misp = Ok values) conns valuess →
       ∃ ds, build_domain_attributes cc conns w = (Ok ds, w)
             ∧ NoDup ds
             ∧ (∀ d, d ∈ ds ↔ d ∈ concat valuess)
             ∧ ("evil.com" ∈ concat valuess →
                matchesDomain (list_to_set ds) "EVIL.com" = true)).
Proof.
  split.
  - intros p lines tag Hp Hread. exists (list_set (Str.strip <$> lines)).
    split_and!.
    + unfold build_domain_attributes. rewrite Hp. rewrite !bind_unfold.
      unfold read. by rewrite Hread.
    + apply NoDup_list_set.
    + intros d. apply elem_of_list_set.
    + intros Hevil. apply matchesDomain_folds. exists "evil.com".
      by rewrite elem_of_list_set.
  - intros valuess Hp Hall. exists (list_set (concat valuess)). split_and!.
    + unfold build_domain_attributes. rewrite Hp. rewrite bind_unfold.
      by rewrite (search_all_domains _ _ _ _ Hall).
    + apply NoDup_list_set.
    + intros d. apply elem_of_list_set.
    + intros Hevil. apply matchesDomain_folds. exists "evil.com".
      by rewrite elem_of_list_set.
Qed.

End domains.

Lemma domains_stripped_deduplicated_case_kept_witness :
  truthy (malicious_domains_file Sample.cc) = Some "/etc/domains"
  ∧ read_file (Utils := Sample.utils) (fs Sample.w0 !! "/etc/domains")
    = Ok (Some ["evil.com"; " Other.org "], false)
  ∧ ∃ ds, build_domain_attributes (U := Sample.utils) Sample.cc [] Sample.w0
          = (Ok ds, Sample.w0)
          ∧ (∀ d, d ∈ ds ↔ d ∈ ["evil.com"; "Other.org"])
          ∧ matchesDomain (list_to_set ds) "EVIL.com" = true.
Proof.
  assert (read_file (Utils := Sample.utils) (fs Sample.w0 !! "/etc/domains")
          = Ok (Some ["evil.com"; " Other.org "], false)) as Hread
    by (vm_compute; reflexivity).
  split_and!; [reflexivity|exact Hread|].
  destruct (proj1 (domains_stripped_deduplicated_case_kept (U := Sample.utils)
                     Sample.cc [] Sample.w0) "/etc/domains" _ false eq_refl Hread)
    as (ds & Hrun & _ & Hmem & Hevil).
  exists ds. split; [exact Hrun|]. split; [exact Hmem|].
  apply Hevil. apply list_elem_of_here.
Defined.

(** Against C6 as first stated: the file of domains holds [Other.org]
    between spaces.  The build strips the spaces and keeps the capital
    letter: the set it makes is not one of lowercase values. *)
Lemma domain_case_is_kept :
  ∃ ds, build_domain_attributes (U := Sample.utils) Sample.cc [] Sample.w0
        = (Ok ds, Sample.w0)
        ∧ "Other.org" ∈ ds
        ∧ ("other.org" ∉ ds)
        ∧ ¬ Forall (λ d, Str.lower d = d) ds.
Proof.
  exists (list_set ["evil.com"; "Other.org"]).
  assert ("Other.org" ∈ list_set ["evil.com"; "Other.org"]) as Hin
    by (apply elem_of_list_set; set_solver).
  split_and!.
  - vm_compute. reflexivity.
  - exact Hin.
  - rewrite elem_of_list_set, !elem_of_cons, elem_of_nil.
    intros [H|[H|[]]]; discriminate H.
  - intros Hall. rewrite Forall_forall in Hall. specialize (Hall _ Hin).
    vm_compute in Hall. discriminate.
Qed.


(** ** The two encodings *)

Lemma for_each_invariant {A S} (I : S → Prop) (body : S → A → M S) l s w s' w' :
  (∀ s x w s' w', I s → body s x w = (Ok s', w') → I s') →
  I s → for_each body l s w = (Ok s', w') → I s'.
Proof.
  intros Hbody. revert s w. induction l as [|x l IH]; intros s w Hs; simpl.
  - by intros [= <- _].
  - intros [(s1 & w1 & Hx & Hl)|(? & _ & [=])]%bind_inv. eauto.
Qed.

Section encodings.
Context {U : Utils}.

Lemma correlate_path_ok sd ed ds ips totals p w lines tag :
  read_file (fs w !! p) = Ok (Some lines, tag) →
  (correlate_path sd ed ds ips totals p w).1
  = Ok (let matches := correlate_file lines sd ed (list_to_set ds) (list_to_set ips) tag in
        if tag then (totals.1, totals.2 ++ matches) else (totals.1 ++ matches, totals.2)).
Proof.
  intros Hread. unfold correlate_path. rewrite bind_unfold. unfold read.
  rewrite Hread. reflexivity.
Qed.

Lemma correlate_path_apart sd ed ds ips totals p w totals' w' :
  buckets_apart totals →
  correlate_path sd ed ds ips totals p w = (Ok totals', w') →
  buckets_apart totals'.
Proof.
  intros [Hfull Hmini]. unfold correlate_path. rewrite bind_unfold. unfold read.
  destruct (read_file (fs w !! p)) as [[[lines|] tag]|e]; simpl; [| |done].
  - rewrite bind_unfold. simpl. intros [= <- _].
    assert (Forall (λ m, encoding m = tag)
              (correlate_file lines sd ed (list_to_set ds) (list_to_set ips) tag))
      as Hnew.
    { apply Forall_forall. intros m Hm. by apply correlate_file_origin in Hm as [? _]. }
    destruct tag; split; simpl; try done; by apply Forall_app.
  - by intros [= <- _].
Qed.

Lemma correlate_input_apart kw sd ds ips totals file w totals' w' :
  buckets_apart totals →
  correlate_input kw sd ds ips totals file w = (Ok totals', w') →
  buckets_apart totals'.
Proof.
  intros Hapart. unfold correlate_input. rewrite bind_unfold. simpl.
  destruct (bool_decide _).
  - intros [(t1 & w1 & Hpath & Hrest)|(? & _ & [=])]%bind_inv.
    apply correlate_path_apart in Hpath; [|done].
    apply bind_inv in Hrest as [(? & w2 & _ & [= <- _])|(? & _ & [=])]. done.
  - rewrite bind_unfold. simpl.
    intros [(t1 & w1 & Hloop & Hrest)|(? & _ & [=])]%bind_inv.
    apply bind_inv in Hrest as [(? & w2 & _ & [= <- _])|(? & _ & [=])].
    revert Hloop. apply for_each_invariant; [|done].
    clear. intros s x w s' w' Hs. rewrite bind_unfold. simpl.
    destruct (bool_decide _); [by apply correlate_path_apart|by intros [= <- _]].
Qed.

Lemma gather_apart cfg kw w conns totals w1 :
  gather cfg kw w = (Ok (conns, totals), w1) → buckets_apart totals.
Proof.
  unfold gather.
  intros [(sd & ? & _ & H)|(? & _ & [=])]%bind_inv.
  apply bind_inv in H as [(start & ? & _ & H)|(? & _ & [=])].
  apply bind_inv in H as [(? & ? & _ & H)|(? & _ & [=])].
  unfold gather_from in H.
  apply bind_inv in H as [(? & ? & _ & H)|(? & _ & [=])].
  apply bind_inv in H as [(ds & ? & _ & H)|(? & _ & [=])].
  apply bind_inv in H as [(ips & ? & _ & H)|(? & _ & [=])].
  apply bind_inv in H as [(t & ? & Hloop & [= _ <- _])|(? & _ & [=])].
  revert Hloop. unfold correlate_files. apply for_each_invariant.
  - intros ? ? ? ? ? Hs. by apply correlate_input_apart.
  - by split.
Qed.

(** C9.  The matches of a file go to the list of its encoding, so one
    list holds full matches only and the other minified ones only; each
    list is enriched by a call of its own, and the documents of both are
    appended to [matches.json] in the output directory after the bytes it
    already had. *)
Theorem buckets_enriched_apart_and_appended cfg kw w conns totals w1 e1 e2 dir :
  gather cfg kw w = (Ok (conns, totals), w1) →
  enrich_logs totals.1 conns false = Ok e1 →
  enrich_logs totals.2 conns true = Ok e2 →
  output_dir (correlation cfg) = Some dir →
  let sink := path_join dir "matches.json" in
  let to_output := sorted timestamp Str.lt (e1 ++ e2) in
  let appended := default "" (fs w1 !! sink) +:+ joined (json_line <$> to_output) in
  buckets_apart totals
  ∧ (∀ sd ed ds ips totals0 p w0 lines tag,
       read_file (fs w0 !! p) = Ok (Some lines, tag) →
       (correlate_path sd ed ds ips totals0 p w0).1
       = Ok (let matches := correlate_file lines sd ed (list_to_set ds)
                              (list_to_set ips) tag in
             if tag then (totals0.1, totals0.2 ++ matches)
             else (totals0.1 ++ matches, totals0.2)))
  ∧ enrich conns totals w1 = (Ok (e1 ++ e2), w1)
  ∧ (∃ w2, write_matches (correlation cfg) (e1 ++ e2) w1 = (Ok to_output, w2)
           ∧ fs w2 !! sink = Some appended
           ∧ correlate cfg kw w = keep_last_timestamp (correlation cfg) to_output w2)
  ∧ (last_correlation_pointer_file (correlation cfg) ≠ Some sink →
     fs (correlate cfg kw w).2 !! sink = Some appended).
Proof.
  intros Hg H1 H2 Hdir sink to_output appended.
  assert (enrich conns totals w1 = (Ok (e1 ++ e2), w1)) as He.
  { unfold enrich. rewrite !bind_unfold. unfold lift. by rewrite H1, H2. }
  pose proof (write_matches_ok (correlation cfg) (e1 ++ e2) w1 dir Hdir) as Hw.
  assert (correlate cfg kw w
          = keep_last_timestamp (correlation cfg) to_output
              (write_matches (correlation cfg) (e1 ++ e2) w1).2) as Hc.
  { rewrite (correlate_unfold _ _ _ _ _ _ _ _ Hg He). unfold output.
    by rewrite (bind_ok _ _ _ _ _ Hw), Hw. }
  split_and!.
  - by eapply gather_apart.
  - intros. by apply correlate_path_ok.
  - done.
  - eexists. split; [exact Hw|]. split; [apply lookup_insert_eq|].
    by rewrite Hc, Hw.
  - intros Hne. rewrite Hc, Hw. unfold keep_last_timestamp.
    destruct (last to_output) as [newest|]; [|apply lookup_insert_eq].
    destruct (last_correlation_pointer_file (correlation cfg)) as [pointer|];
      [|apply lookup_insert_eq].
    simpl. rewrite !lookup_insert_ne by congruence. apply lookup_insert_eq.
Qed.

End encodings.

Lemma buckets_enriched_apart_and_appended_witness :
  let cfg := Sample.cfg "k" in
  let kw := Sample.kw_mixed in
  let w1 := (gather (U := Sample.utils) cfg kw Sample.mixed).2 in
  fs Sample.mixed !! "/out/matches.json" = Some ("5 earlier.example" +:+ Sample.nl)
  ∧ gather (U := Sample.utils) cfg kw Sample.mixed
    = (Ok ([Sample.server "k"], (Sample.found, Sample.found_minified)), w1)
  ∧ buckets_apart (Sample.found, Sample.found_minified)
  ∧ enrich_logs (Utils := Sample.utils) Sample.found [Sample.server "k"] false
    = Ok Sample.enriched
  ∧ enrich_logs (Utils := Sample.utils) Sample.found_minified [Sample.server "k"] true
    = Ok Sample.enriched_minified
  ∧ fs (correlate (U := Sample.utils) cfg kw Sample.mixed).2 !! "/out/matches.json"
    = Some ("5 earlier.example" +:+ Sample.nl +:+ "20 EVIL.com" +:+ Sample.nl
            +:+ "25 EVIL.com" +:+ Sample.nl +:+ "30 good.org" +:+ Sample.nl).
Proof.
  intros cfg kw w1.
  assert (gather (U := Sample.utils) cfg kw Sample.mixed
          = (Ok ([Sample.server "k"], (Sample.found, Sample.found_minified)), w1))
    as Hg by (vm_compute; reflexivity).
  assert (enrich_logs (Utils := Sample.utils) Sample.found [Sample.server "k"] false
          = Ok Sample.enriched) as H1 by (vm_compute; reflexivity).
  assert (enrich_logs (Utils := Sample.utils) Sample.found_minified
            [Sample.server "k"] true = Ok Sample.enriched_minified) as H2
    by (vm_compute; reflexivity).
  assert (last_correlation_pointer_file (correlation cfg)
          ≠ Some (path_join "/out" "matches.json")) as Hne
    by (intros Heq; vm_compute in Heq; discriminate Heq).
  pose proof (buckets_enriched_apart_and_appended (U := Sample.utils)
                cfg kw Sample.mixed _ _ w1 _ _ "/out" Hg H1 H2 eq_refl)
    as (Hapart & _ & _ & _ & Hsink).
  split_and!; [vm_compute; reflexivity|exact Hg|exact Hapart|exact H1|exact H2|].
  refine (eq_trans (Hsink Hne) _).
  vm_compute. reflexivity.
Defined.


(** ** The files of indicators *)

Section refreshing.
Context {U : Utils}.

Lemma rewrite_if_changed_same file old new w :
  (list_to_set old : gset string) = list_to_set new →
  rewrite_if_changed file old new w = (Ok tt, w).
Proof. intros Heq. unfold rewrite_if_changed. by rewrite decide_False by auto. Qed.

Lemma rewrite_if_changed_differ file old new w :
  (list_to_set old : gset string) ≠ list_to_set new →
  rewrite_if_changed file old new w
  = (Ok tt, World (<[file := joined (Str.line <$> list_set new)]> (fs w)) (dirs w)
                  (trace w ++ rewriting file new)).
Proof.
  intros Hne. unfold rewrite_if_changed. rewrite decide_True by done.
  rewrite bind_unfold. unfold write_generic at 1.
  erewrite (write_all Str.line) by apply lookup_insert_eq. simpl.
  by rewrite insert_insert_eq, <-app_assoc.
Qed.

Lemma reads_only_split2 sep s : reads_only (split2 sep s).
Proof. unfold split2. auto 10 with reads. Qed.

Lemma reads_only_bucket new a : reads_only (bucket new a).
Proof.
  pose proof reads_only_split2. unfold bucket.
  repeat case_decide; auto 10 with reads.
Qed.

Lemma reads_only_gather_iocs cfg : reads_only (gather_iocs cfg).
Proof.
  pose proof reads_only_bucket.
  unfold gather_iocs, connect_with_args, fetch. auto 10 with reads.
Qed.

Lemma attributes_old_world file w : (attributes_old file w).2 = w.
Proof.
  unfold attributes_old. rewrite bind_unfold. simpl.
  destruct (bool_decide _); [|done].
  rewrite bind_unfold. unfold read.
  destruct (read_file (fs w !! file)) as [[[lines|] tag]|e]; done.
Qed.

Lemma refresh_ok key file new w old :
  (attributes_old file w).1 = Ok old →
  refresh key (Some file) new w = (Ok old, (rewrite_if_changed file old new w).2).
Proof.
  intros Hold. pose proof (attributes_old_world file w) as Hw.
  destruct (attributes_old file w) as [r w0] eqn:Ha. simpl in *. subst r w0.
  unfold refresh. simpl. rewrite bind_unfold. simpl.
  rewrite (bind_ok _ _ _ _ _ Ha). rewrite bind_unfold.
  destruct (decide ((list_to_set old : gset string) = list_to_set new)) as [Heq|Hne].
  - by rewrite rewrite_if_changed_same.
  - by rewrite rewrite_if_changed_differ.
Qed.

End refreshing.

(** ** Deleting on success *)

Lemma reads_only_eq {A} (m : M A) w r w' :
  reads_only m → m w = (r, w') → fs w' = fs w.
Proof. intros Hm Hrun. destruct (Hm w) as [Hfs _]. by rewrite Hrun in Hfs. Qed.

Section deleting.
Context {U : Utils}.

(** Whatever the collaborators are: when the one argument is a regular
    file and it is to be deleted on success, the file is unlinked by the
    time the matches are handed to the enrichment, and nothing has been
    written yet. *)
Lemma unlinked_when_gathered cfg kw w conns totals w1 f :
  files kw = [f] →
  delete_on_success kw = true →
  is_Some (fs w !! Path f) →
  gather cfg kw w = (Ok (conns, totals), w1) →
  fs w1 = delete (Path f) (fs w) ∧ ∃ before, trace w1 = before ++ [Unlink (Path f)].
Proof.
  intros Hfiles Hdel Hf. unfold gather.
  intros [(sd & w2 & H2 & H)|(? & _ & [=])]%bind_inv.
  apply reads_only_eq in H2; [|apply reads_only_determine_start_date].
  apply bind_inv in H as [(start & w3 & H3 & H)|(? & _ & [=])].
  apply reads_only_eq in H3; [|apply reads_only_bound].
  apply bind_inv in H as [(? & w4 & H4 & H)|(? & _ & [=])].
  apply reads_only_eq in H4; [|apply reads_only_emit].
  unfold gather_from in H.
  apply bind_inv in H as [(? & w5 & H5 & H)|(? & _ & [=])].
  apply reads_only_eq in H5; [|apply reads_only_connect].
  apply bind_inv in H as [(ds & w6 & H6 & H)|(? & _ & [=])].
  apply reads_only_eq in H6; [|apply reads_only_build_domain_attributes].
  apply bind_inv in H as [(ips & w7 & H7 & H)|(? & _ & [=])].
  apply reads_only_eq in H7; [|apply reads_only_build_ip_attributes].
  apply bind_inv in H as [(t & w8 & Hloop & [= _ _ <-])|(? & _ & [=])].
  assert (fs w7 = fs w) as Hfs by congruence. clear H2 H3 H4 H5 H6 H7.
  unfold correlate_files in Hloop. rewrite Hfiles in Hloop. simpl in Hloop.
  apply bind_inv in Hloop as [(t' & w9 & Hin & [= _ <-])|(? & _ & [=])].
  unfold correlate_input in Hin. rewrite bind_unfold in Hin. simpl in Hin.
  rewrite Hfs, bool_decide_true in Hin by done. rewrite Hdel in Hin.
  apply bind_inv in Hin as [(t1 & wa & Hpath & Hin)|(? & _ & [=])].
  apply reads_only_eq in Hpath as Hfa; [|apply reads_only_correlate_path].
  apply bind_inv in Hin as [([] & wb & Hun & [= _ <-])|(? & _ & [=])].
  unfold unlink in Hun. rewrite Hfa, Hfs in Hun.
  destruct Hf as [bytes Hbytes]. rewrite Hbytes in Hun.
  injection Hun as <-. simpl. eauto.
Qed.

End deleting.

(** Against C4.  The run is asked to delete its input on success and the
    server rejects the key when the matches are to be enriched.  The log
    held two matches; when the run stops the log is gone and
    [matches.json] has not been created.  With a key that the server
    accepts, the same run unlinks the log before it opens [matches.json]. *)
Theorem input_unlinked_before_matches_persist :
  let lost := correlate (U := Sample.utils) (Sample.cfg "") (Sample.kw true 99) Sample.w0 in
  let kept := correlate (U := Sample.utils) (Sample.cfg "k") (Sample.kw true 99) Sample.w0 in
  is_Some (fs Sample.w0 !! "/in/a.log")
  ∧ lost.1 = Raise (External "the server rejects the key")
  ∧ fs lost.2 !! "/in/a.log" = None
  ∧ fs lost.2 !! "/out/matches.json" = None
  ∧ trace lost.2
    = [Log INFO "Parsing alerts from: 10 to 99";
       Log WARNING "Invalid malicious IP value not an address";
       Log INFO "Found 2 matches in /in/a.log";
       Unlink "/in/a.log"]
  ∧ kept.1 = Ok tt
  ∧ trace kept.2
    = [Log INFO "Parsing alerts from: 10 to 99";
       Log WARNING "Invalid malicious IP value not an address";
       Log INFO "Found 2 matches in /in/a.log";
       Unlink "/in/a.log";
       OpenFile "/out/matches.json" AppendTo;
       WriteText "/out/matches.json" ("20 EVIL.com" +:+ Sample.nl);
       WriteText "/out/matches.json" ("30 good.org" +:+ Sample.nl);
       OpenFile "/var/pointer" Truncate;
       WriteText "/var/pointer" ("30" +:+ Sample.nl)].
Proof.
  intros lost kept. split_and!; [by eexists|vm_compute; reflexivity..].
Qed.

(** * Further properties of the commands *)

(** ** The configuration *)

Section configuration.
Context {U : Utils}.

(** X1.  A configuration file that cannot be opened or parsed leaves the
    empty mapping, and an empty document leaves [None]: each command then
    stops at its first look-up, [correlate] and the [fetch_iocs] of the
    subcommands at ['correlation'], the [fetch_iocs] of pdnssoccli.py at
    ['logging_level'], with a [KeyError] in the first case and a
    [TypeError] in the second, and the world as it was. *)
Theorem unusable_configuration_stops_commands e kw w :
  correlate_command (configure (Raise e)) kw w = (Raise (KeyError "correlation"), w)
  ∧ fetch_iocs_command (configure (Raise e)) w = (Raise (KeyError "correlation"), w)
  ∧ main_fetch_iocs (configure (Raise e)) w = (Raise (KeyError "logging_level"), w)
  ∧ correlate_command (configure (Ok None)) kw w = (Raise TypeError, w)
  ∧ fetch_iocs_command (configure (Ok None)) w = (Raise TypeError, w)
  ∧ main_fetch_iocs (configure (Ok None)) w = (Raise TypeError, w).
Proof. done. Qed.

End configuration.


(** ** What a run leaves alone *)

Global Instance shrunk_within_preorder inputs : PreOrder (shrunk_within inputs).
Proof.
  split.
  - intros m. by split.
  - intros m1 m2 m3 [Hs12 Hk12] [Hs23 Hk23]. split; [by etrans|].
    intros p Hp. by rewrite Hk23, Hk12.
Qed.

Lemma fs_steps_reads_only P `{!Reflexive P} {A} (m : M A) :
  reads_only m → fs_steps P m.
Proof. intros Hm w. destruct (Hm w) as [-> _]. done. Qed.

Lemma fs_steps_bind P `{!Transitive P} {A B} (m : M A) (f : A → M B) :
  fs_steps P m → (∀ a, fs_steps P (f a)) → fs_steps P (m ≫= f).
Proof.
  intros Hm Hf w. rewrite bind_unfold. specialize (Hm w).
  destruct (m w) as [[a|e] w1]; simpl in *; [|done].
  etrans; [exact Hm|apply Hf].
Qed.

Lemma fs_steps_for_each P `{!PreOrder P} {A S} (body : S → A → M S) l s :
  (∀ s x, x ∈ l → fs_steps P (body s x)) → fs_steps P (for_each body l s).
Proof.
  revert s. induction l as [|x l IH]; intros s Hbody; simpl.
  - intros w. done.
  - apply fs_steps_bind; [apply _|apply Hbody; left|].
    intros s'. apply IH. intros s'' y Hy. apply Hbody. by right.
Qed.

Lemma fs_steps_unlink inputs f : f ∈ inputs → fs_steps (shrunk_within inputs) (unlink f).
Proof.
  intros Hf w. unfold unlink. destruct (fs w !! f); simpl; [|done].
  split; [apply delete_subseteq|].
  intros p Hp. apply lookup_delete_ne.
  unfold apart_from in Hp. rewrite Forall_forall in Hp. by destruct (Hp f Hf).
Qed.

Lemma fs_steps_rmtree inputs f :
  Path f ∈ inputs → fs_steps (shrunk_within inputs) (rmtree f).
Proof.
  intros Hf w. unfold rmtree.
  assert (shrunk_within inputs (fs w)
            (filter (λ kv, ¬ Is_true (below (Path f) kv.1)) (fs w))) as Hshrunk.
  { split; [apply map_filter_subseteq|].
    intros p Hp. unfold apart_from in Hp. rewrite Forall_forall in Hp.
    destruct (Hp _ Hf) as [_ Hbelow].
    destruct (fs w !! p) as [bytes|] eqn:Hbytes.
    - by apply map_lookup_filter_Some_2.
    - apply map_lookup_filter_None_2. by left. }
  destruct (decide (is_Some _)); [done|].
  destruct (decide (_ ∧ _)); [|done].
  by destruct (rmdir_refuses f).
Qed.

Section frame.
Context {U : Utils}.

Lemma fs_steps_correlate_input kw sd ds ips totals file :
  file ∈ files kw →
  fs_steps (shrunk_within (Path <$> deleted_arguments kw))
           (correlate_input kw sd ds ips totals file).
Proof.
  intros Hfile. unfold deleted_arguments.
  destruct (delete_on_success kw) eqn:Hd.
  - assert (Path file ∈ Path <$> files kw) as Hpath
      by (apply list_elem_of_fmap; eauto).
    unfold correlate_input. rewrite Hd.
    apply fs_steps_bind; [apply _|by apply fs_steps_reads_only|].
    intros [].
    + apply fs_steps_bind; [apply _| |].
      { apply fs_steps_reads_only; [apply _|apply reads_only_correlate_path]. }
      intros t. apply fs_steps_bind; [apply _|by apply fs_steps_unlink|].
      intros _. by apply fs_steps_reads_only.
    + apply fs_steps_bind; [apply _|by apply fs_steps_reads_only|].
      intros nested. apply fs_steps_bind; [apply _| |].
      { apply fs_steps_reads_only; [apply _|].
        apply reads_only_for_each. intros t x.
        apply reads_only_bind; [done|]. intros [];
          [apply reads_only_correlate_path|done]. }
      intros t. apply fs_steps_bind; [apply _|by apply fs_steps_rmtree|].
      intros _. by apply fs_steps_reads_only.
  - apply fs_steps_reads_only; [apply _|]. by apply reads_only_correlate_input.
Qed.

Lemma fs_steps_gather cfg kw :
  fs_steps (shrunk_within (Path <$> deleted_arguments kw)) (gather cfg kw).
Proof.
  unfold gather, gather_from.
  apply fs_steps_bind; [apply _| |intros sd].
  { apply fs_steps_reads_only; [apply _|apply reads_only_determine_start_date]. }
  apply fs_steps_bind; [apply _| |intros start].
  { apply fs_steps_reads_only; [apply _|apply reads_only_bound]. }
  apply fs_steps_bind; [apply _|by apply fs_steps_reads_only|intros _].
  apply fs_steps_bind; [apply _| |intros conns].
  { apply fs_steps_reads_only; [apply _|apply reads_only_connect]. }
  apply fs_steps_bind; [apply _| |intros ds].
  { apply fs_steps_reads_only; [apply _|apply reads_only_build_domain_attributes]. }
  apply fs_steps_bind; [apply _| |intros ips].
  { apply fs_steps_reads_only; [apply _|apply reads_only_build_ip_attributes]. }
  apply fs_steps_bind; [apply _| |intros t; by apply fs_steps_reads_only].
  unfold correlate_files. apply fs_steps_for_each; [apply _|].
  intros s x Hx. by apply fs_steps_correlate_input.
Qed.

Lemma output_frame cc batch w p :
  (∀ dir, output_dir cc = Some dir → p ≠ path_join dir "matches.json") →
  last_correlation_pointer_file cc ≠ Some p →
  fs (output cc batch w).2 !! p = fs w !! p.
Proof.
  intros Hsink Hpointer. unfold output.
  destruct (output_dir cc) as [dir|] eqn:Hdir.
  - rewrite (bind_ok _ _ _ _ _ (write_matches_ok _ _ _ _ Hdir)).
    specialize (Hsink dir eq_refl). unfold keep_last_timestamp.
    destruct (last _) as [newest|]; [|by apply lookup_insert_ne].
    destruct (last_correlation_pointer_file cc) as [pointer|];
      [|by apply lookup_insert_ne].
    simpl. rewrite !lookup_insert_ne by congruence. done.
  - by rewrite (bind_raise _ _ _ _ _ (write_matches_no_dir _ _ _ Hdir)).
Qed.

(** X3.  Until the matches are handed to the enrichment a run creates
    no file and changes none: what is on the disk then was there before,
    with the same bytes. *)
Theorem gather_only_removes cfg kw w : fs (gather cfg kw w).2 ⊆ fs w.
Proof. by destruct (fs_steps_gather cfg kw w). Qed.

(** X4.  Whatever the outcome of a run, a file is left as it was, with
    its bytes or its absence, when it is neither [matches.json] in the
    output directory nor the pointer and, should the run delete on
    success, neither an argument nor below one.  The arguments are
    compared as pathlib prints them, so that [/in/] stands for [/in]; the
    names that are compared are taken from the root and without [..],
    for the file system of the model knows a file by its name.  A run
    that does not delete thus touches those two files alone. *)
Theorem correlate_leaves_other_files cfg kw w p :
  Is_true (canonical p) →
  Forall (λ f, Is_true (canonical (Path f))) (deleted_arguments kw) →
  apart_from (Path <$> deleted_arguments kw) p →
  (∀ dir, output_dir (correlation cfg) = Some dir →
          Is_true (canonical (Path dir)) ∧ p ≠ path_join dir "matches.json") →
  (∀ pointer, last_correlation_pointer_file (correlation cfg) = Some pointer →
              Is_true (canonical pointer) ∧ p ≠ pointer) →
  fs (correlate cfg kw w).2 !! p = fs w !! p.
Proof.
  intros _ _ Hp Hsink Hpointer.
  destruct (fs_steps_gather cfg kw w) as [_ Hkeep]. specialize (Hkeep p Hp).
  unfold correlate. rewrite bind_unfold.
  destruct (gather cfg kw w) as [[[conns totals]|e] w1]; simpl in *; [|done].
  rewrite bind_unfold.
  destruct (enrich conns totals w1) as [[batch|e] w2] eqn:He;
    apply enrich_inv in He as ->; simpl; [|done].
  rewrite output_frame; [done| |].
  - intros dir Hdir. by destruct (Hsink dir Hdir).
  - intros Heq. by destruct (Hpointer p Heq).
Qed.

End frame.

Lemma correlate_leaves_other_files_witness :
  let kw := {| files := ["/in/"]; start_date := None; end_date := 99;
               delete_on_success := true |} in
  let w' := (correlate (U := Sample.utils) (Sample.cfg "k") kw Sample.w0).2 in
  fs w' !! "/in/a.log" = None
  ∧ fs w' !! "/etc/domains" = fs Sample.w0 !! "/etc/domains".
Proof.
  intros kw w'. split; [vm_compute; reflexivity|].
  apply (correlate_leaves_other_files (U := Sample.utils)).
  - vm_compute. exact I.
  - constructor; [vm_compute; exact I|constructor].
  - constructor; [split|constructor].
    + intros H. vm_compute in H. discriminate H.
    + vm_compute. exact id.
  - intros dir Hdir. injection Hdir as <-. split; [vm_compute; exact I|].
    intros H. vm_compute in H. discriminate H.
  - intros pointer Hpointer. injection Hpointer as <-. split; [vm_compute; exact I|].
    intros H. discriminate H.
Defined.

(** ** The arguments of a run *)

Lemma filter_none {A} (P : A → Prop) `{!∀ x, Decision (P x)} (l : list A) :
  (∀ x, x ∈ l → ¬ P x) → filter P l = [].
Proof.
  induction l as [|x l IH]; intros Hl; [done|].
  rewrite filter_cons, decide_False by (apply Hl; left).
  apply IH. intros y Hy. apply Hl. by right.
Qed.

Lemma rglob_nothing file w :
  (∀ p, Is_true (below file p) → fs w !! p = None ∧ p ∉ dirs w) →
  rglob file w = (Ok [], w).
Proof.
  intros Hnone. unfold rglob. f_equal. f_equal. apply filter_none.
  intros p [Hp|Hp]%elem_of_app Hbelow; destruct (Hnone p Hbelow) as [Hf Hd].
  - apply list_elem_of_fmap in Hp as ([q bytes] & -> & Hq).
    apply elem_of_map_to_list in Hq. simpl in *. congruence.
  - by apply elem_of_elements in Hp.
Qed.

Section arguments.
Context {U : Utils}.

(** X5.  Without a file of addresses the networks are asked of one
    server only, the last of the list: the connections before it play no
    part, and with no server at all the build stops on the unassigned
    variable of line 198. *)
Theorem addresses_come_from_last_server cc conns misp w :
  truthy (malicious_ips_file cc) = None →
  build_ip_attributes cc (conns ++ [misp]) w = build_ip_attributes cc [misp] w
  ∧ build_ip_attributes cc [] w = (Raise (UnboundLocalError "misp"), w).
Proof.
  intros Hnone. unfold build_ip_attributes. rewrite Hnone.
  by rewrite last_snoc.
Qed.

(** X6.  An argument that is no file and has nothing below it is passed
    over in silence when nothing is to be deleted; when the run deletes
    on success and the argument is no directory either, the run stops
    there with [FileNotFoundError].  In both cases the matches found so
    far and the world are as they were.  The argument is looked up as
    pathlib prints it, and is taken from the root and without [..]. *)
Theorem missing_argument kw sd ds ips totals file w :
  Is_true (canonical (Path file)) →
  fs w !! Path file = None →
  (∀ p, Is_true (below (Path file) p) → fs w !! p = None ∧ p ∉ dirs w) →
  (delete_on_success kw = false →
   correlate_input kw sd ds ips totals file w = (Ok totals, w))
  ∧ (delete_on_success kw = true → Path file ∉ dirs w →
     correlate_input kw sd ds ips totals file w = (Raise (FileNotFoundError file), w)).
Proof.
  intros _ Hfile Hbelow.
  assert (correlate_input kw sd ds ips totals file w
            = (for_each
                 (λ totals nested_path,
                    regular ← is_file nested_path;
                    if (regular : bool) then
                      correlate_path sd (end_date kw) ds ips totals nested_path
                    else mret totals) [] totals
               ≫= λ totals,
                    (if delete_on_success kw then rmtree file else mret ());;
                    mret totals) w) as Hstep.
  { unfold correlate_input.
    rewrite bind_unfold. unfold is_file at 1. rewrite Hfile.
    rewrite bool_decide_false by (by intros [? ?]).
    by rewrite (bind_ok _ _ _ _ _ (rglob_nothing _ _ Hbelow)). }
  rewrite Hstep. clear Hstep. simpl.
  split.
  - by intros ->.
  - intros -> Hdir. rewrite bind_unfold. simpl. rewrite bind_unfold.
    unfold rmtree. rewrite Hfile.
    rewrite decide_False by (by intros [? ?]).
    by rewrite decide_False by (by intros [_ ?]).
Qed.

(** X7.  A regular file for which [read_file] returns a falsy iterator
    adds no match and logs nothing, yet it is unlinked when the run
    deletes on success; a file that [read_file] fails on stops the run
    before it is unlinked.  The file is the one that the argument names
    as pathlib prints it. *)
Theorem unread_file_is_unlinked kw sd ds ips totals file w bytes :
  fs w !! Path file = Some bytes →
  (∀ tag, read_file (Some bytes) = Ok (None, tag) →
     correlate_input kw sd ds ips totals file w
     = (Ok totals,
        if delete_on_success kw
        then World (delete (Path file) (fs w)) (dirs w)
                   (trace w ++ [Unlink (Path file)])
        else w))
  ∧ (∀ e, read_file (Some bytes) = Raise e →
       correlate_input kw sd ds ips totals file w = (Raise e, w)).
Proof.
  intros Hfile. split.
  - intros tag Hread. unfold correlate_input.
    rewrite bind_unfold. unfold is_file at 1. rewrite Hfile.
    rewrite bool_decide_true by eauto.
    rewrite bind_unfold. unfold correlate_path. rewrite bind_unfold.
    unfold read at 1. rewrite Hfile, Hread. simpl.
    destruct (delete_on_success kw); [|done].
    rewrite bind_unfold. unfold unlink. by rewrite Hfile.
  - intros e Hread. unfold correlate_input.
    rewrite bind_unfold. unfold is_file at 1. rewrite Hfile.
    rewrite bool_decide_true by eauto.
    rewrite bind_unfold. unfold correlate_path. rewrite bind_unfold.
    unfold read at 1. by rewrite Hfile, Hread.
Qed.

Lemma correlate_path_extends sd ed ds ips totals p w totals' w' :
  correlate_path sd ed ds ips totals p w = (Ok totals', w') →
  totals.1 `prefix_of` totals'.1 ∧ totals.2 `prefix_of` totals'.2.
Proof.
  unfold correlate_path. rewrite bind_unfold. unfold read.
  destruct (read_file (fs w !! p)) as [[[lines|] tag]|e]; simpl; [| |done].
  - rewrite bind_unfold. simpl. intros [= <- _].
    destruct tag; simpl; split; try done; by apply prefix_app_r.
  - by intros [= <- _].
Qed.

(** X8.  Processing an argument only adds to the two lists of matches:
    what earlier arguments have put there stays, in the same order, at
    the front. *)
Theorem matches_accumulate kw sd ds ips totals file w totals' w' :
  correlate_input kw sd ds ips totals file w = (Ok totals', w') →
  totals.1 `prefix_of` totals'.1 ∧ totals.2 `prefix_of` totals'.2.
Proof.
  unfold correlate_input. rewrite bind_unfold. simpl.
  destruct (bool_decide _).
  - intros [(t1 & w1 & Hpath & Hrest)|(? & _ & [=])]%bind_inv.
    apply correlate_path_extends in Hpath.
    apply bind_inv in Hrest as [(? & w2 & _ & [= <- _])|(? & _ & [=])]. done.
  - rewrite bind_unfold. simpl.
    intros [(t1 & w1 & Hloop & Hrest)|(? & _ & [=])]%bind_inv.
    apply bind_inv in Hrest as [(? & w2 & _ & [= <- _])|(? & _ & [=])].
    revert Hloop.
    apply (for_each_invariant
             (λ t, totals.1 `prefix_of` t.1 ∧ totals.2 `prefix_of` t.2)); [|done].
    clear. intros s x w s' w' [H1 H2]. rewrite bind_unfold. simpl.
    destruct (bool_decide _); [|by intros [= <- _]].
    intros [H1' H2']%correlate_path_extends. split; by etrans.
Qed.

End arguments.


Lemma addresses_come_from_last_server_witness :
  truthy (malicious_ips_file Sample.cc_no_files) = None
  ∧ build_ip_attributes (U := Sample.utils) Sample.cc_no_files
      ([Sample.server "a"] ++ [Sample.server "k"]) Sample.w0
    = build_ip_attributes (U := Sample.utils) Sample.cc_no_files
        [Sample.server "k"] Sample.w0.
Proof.
  split; [reflexivity|].
  exact (proj1 (addresses_come_from_last_server (U := Sample.utils)
                  Sample.cc_no_files [Sample.server "a"] (Sample.server "k")
                  Sample.w0 eq_refl)).
Defined.

Lemma missing_argument_witness :
  let w := World {["/in/a.log" := "20 EVIL.com"]} {["/in"]} [] in
  fs w !! Path "/in/missing/" = None
  ∧ correlate_input (U := Sample.utils) (Sample.kw false 99) 10 [] [] ([], [])
      "/in/missing/" w = (Ok ([], []), w)
  ∧ correlate_input (U := Sample.utils) (Sample.kw true 99) 10 [] [] ([], [])
      "/in/missing/" w = (Raise (FileNotFoundError "/in/missing/"), w).
Proof.
  intros w.
  assert (Is_true (canonical (Path "/in/missing/"))) as Hname
    by (vm_compute; exact I).
  assert (fs w !! Path "/in/missing/" = None) as Hfile by (vm_compute; reflexivity).
  assert (∀ p, Is_true (below (Path "/in/missing/") p) → fs w !! p = None ∧ p ∉ dirs w)
    as Hbelow.
  { intros p Hp. change (Path "/in/missing/") with "/in/missing" in Hp.
    unfold w. simpl. split.
    - destruct (decide (p = "/in/a.log")) as [->|Hne]; [by vm_compute in Hp|].
      by apply lookup_singleton_ne.
    - intros ->%elem_of_singleton. by vm_compute in Hp. }
  assert (Path "/in/missing/" ∉ dirs w) as Hdir.
  { unfold w. simpl. intros H%elem_of_singleton. vm_compute in H. discriminate H. }
  split; [exact Hfile|]. split.
  - exact (proj1 (missing_argument (U := Sample.utils) (Sample.kw false 99) 10 [] []
                    ([], []) "/in/missing/" w Hname Hfile Hbelow) eq_refl).
  - exact (proj2 (missing_argument (U := Sample.utils) (Sample.kw true 99) 10 [] []
                    ([], []) "/in/missing/" w Hname Hfile Hbelow) eq_refl Hdir).
Defined.

Lemma unread_file_is_unlinked_witness :
  fs Sample.hollow !! Path "/in//empty.log" = Some ""
  ∧ read_file (Utils := Sample.picky) (Some "") = Ok (None, false)
  ∧ correlate_input (U := Sample.picky) (Sample.kw true 99) 10 [] [] ([], [])
      "/in//empty.log" Sample.hollow
    = (Ok ([], []),
       World (delete "/in/empty.log" (fs Sample.hollow)) (dirs Sample.hollow)
             [Unlink "/in/empty.log"]).
Proof.
  assert (fs Sample.hollow !! Path "/in//empty.log" = Some "") as Hfile
    by (vm_compute; reflexivity).
  split; [exact Hfile|]. split; [reflexivity|].
  exact (proj1 (unread_file_is_unlinked (U := Sample.picky) (Sample.kw true 99) 10
                  [] [] ([], []) "/in//empty.log" Sample.hollow "" Hfile)
               false eq_refl).
Defined.

Lemma matches_accumulate_witness :
  let w' := (correlate_input (U := Sample.utils) (Sample.kw false 99) 10
               ["evil.com"] [] (take 1 Sample.found, []) "/in/a.log" Sample.w0).2 in
  correlate_input (U := Sample.utils) (Sample.kw false 99) 10
    ["evil.com"] [] (take 1 Sample.found, []) "/in/a.log" Sample.w0
  = (Ok (take 1 Sample.found ++ take 1 Sample.found, []), w')
  ∧ take 1 Sample.found `prefix_of` take 1 Sample.found ++ take 1 Sample.found.
Proof.
  intros w'.
  assert (correlate_input (U := Sample.utils) (Sample.kw false 99) 10
            ["evil.com"] [] (take 1 Sample.found, []) "/in/a.log" Sample.w0
          = (Ok (take 1 Sample.found ++ take 1 Sample.found, []), w')) as Hrun
    by (vm_compute; reflexivity).
  split; [exact Hrun|].
  exact (proj1 (matches_accumulate (U := Sample.utils) _ _ _ _ _ _ _ _ _ Hrun)).
Defined.

(** ** The output and the next run *)

Section output_facts.
Context {U : Utils}.

Lemma output_ok cc batch w dir pointer :
  output_dir cc = Some dir →
  last_correlation_pointer_file cc = Some pointer →
  pointer ≠ path_join dir "matches.json" →
  ∃ w', output cc batch w = (Ok tt, w')
        ∧ fs w' !! path_join dir "matches.json"
          = Some (default "" (fs w !! path_join dir "matches.json")
                  +:+ joined (json_line <$> sorted timestamp Str.lt batch)).
Proof.
  intros Hdir Hp Hne. unfold output.
  rewrite (bind_ok _ _ _ _ _ (write_matches_ok _ _ _ _ Hdir)).
  destruct (last (sorted timestamp Str.lt batch)) as [newest|] eqn:Hlast.
  - rewrite (keep_last_timestamp_some _ _ _ _ _ Hlast Hp). eexists. split; [done|].
    simpl. rewrite lookup_insert_ne by done. apply lookup_insert_eq.
  - unfold keep_last_timestamp. rewrite Hlast. eexists. split; [done|].
    apply lookup_insert_eq.
Qed.

(** X9.  When the configuration has no key for the pointer and the batch
    is not empty, the run appends the documents to [matches.json] and
    then stops with a [KeyError] at line 278: the look-up there is not
    guarded as the one of line 142 is. *)
Theorem matches_written_before_pointer_key
    cfg kw w conns totals w1 w2 batch dir :
  output_dir (correlation cfg) = Some dir →
  last_correlation_pointer_file (correlation cfg) = None →
  gather cfg kw w = (Ok (conns, totals), w1) →
  enrich conns totals w1 = (Ok batch, w2) →
  batch ≠ [] →
  ∃ w', correlate cfg kw w = (Raise (KeyError "last_correlation_pointer_file"), w')
        ∧ fs w' !! path_join dir "matches.json"
          = Some (default "" (fs w1 !! path_join dir "matches.json")
                  +:+ joined (json_line <$> sorted timestamp Str.lt batch)).
Proof.
  intros Hdir Hp Hg He Hne. rewrite (correlate_unfold _ _ _ _ _ _ _ _ Hg He).
  unfold output. rewrite (bind_ok _ _ _ _ _ (write_matches_ok _ _ _ _ Hdir)).
  unfold keep_last_timestamp.
  destruct (last (sorted timestamp Str.lt batch)) as [newest|] eqn:Hlast.
  2: { by apply last_None, sorted_nil_iff in Hlast. }
  rewrite Hp. simpl. eexists. split; [done|]. apply lookup_insert_eq.
Qed.

(** X10.  The output does not look at what [matches.json] holds: two
    outputs in a row leave the earlier bytes, then the lines of the first
    batch, then those of the second, so that a batch written again is
    there twice. *)
Theorem output_twice_appends cc batch1 batch2 w dir pointer :
  output_dir cc = Some dir →
  last_correlation_pointer_file cc = Some pointer →
  pointer ≠ path_join dir "matches.json" →
  ∃ w1 w2,
    output cc batch1 w = (Ok tt, w1)
    ∧ output cc batch2 w1 = (Ok tt, w2)
    ∧ fs w2 !! path_join dir "matches.json"
      = Some (default "" (fs w !! path_join dir "matches.json")
              +:+ joined (json_line <$> sorted timestamp Str.lt batch1)
              +:+ joined (json_line <$> sorted timestamp Str.lt batch2)).
Proof.
  intros Hdir Hp Hne.
  destruct (output_ok cc batch1 w dir pointer Hdir Hp Hne) as (w1 & Hrun1 & Hfs1).
  destruct (output_ok cc batch2 w1 dir pointer Hdir Hp Hne) as (w2 & Hrun2 & Hfs2).
  exists w1, w2. split_and!; [done..|].
  rewrite Hfs2, Hfs1. simpl. by rewrite app_assoc_str.
Qed.

(** X11.  The pointer that a run leaves is what the next run starts
    from: when the reader gives back the line written and the line
    parses, a run without a start date begins its window at the instant
    of the newest document of the run before. *)
Theorem pointer_read_back cc kw to_output newest pointer w line rest tag t :
  last to_output = Some newest →
  last_correlation_pointer_file cc = Some pointer →
  start_date kw = None →
  read_file (Some (Str.line (timestamp newest))) = Ok (Some (line :: rest), tag) →
  parse_rfc3339_ns line = Ok t →
  determine_start_date cc kw (keep_last_timestamp cc to_output w).2
  = (Ok (Some t), (keep_last_timestamp cc to_output w).2).
Proof.
  intros Hlast Hp Hs Hread Ht.
  rewrite (keep_last_timestamp_some _ _ _ _ _ Hlast Hp). simpl.
  unfold determine_start_date. rewrite Hs, Hp. rewrite bind_unfold.
  unfold read. simpl. rewrite lookup_insert_eq, Hread. simpl.
  rewrite bind_unfold. simpl. rewrite bind_unfold. unfold lift. by rewrite Ht.
Qed.

End output_facts.

Lemma matches_written_before_pointer_key_witness :
  let cfg := {| correlation := Sample.cc_no_pointer;
                misp_servers := [Sample.server "k"] |} in
  let kw := Sample.kw false 99 in
  let w1 := (gather (U := Sample.utils) cfg kw Sample.w0).2 in
  gather (U := Sample.utils) cfg kw Sample.w0
    = (Ok ([Sample.server "k"], (Sample.found, [])), w1)
  ∧ ∃ w', correlate (U := Sample.utils) cfg kw Sample.w0
          = (Raise (KeyError "last_correlation_pointer_file"), w')
          ∧ is_Some (fs w' !! path_join "/out" "matches.json").
Proof.
  intros cfg kw w1.
  assert (gather (U := Sample.utils) cfg kw Sample.w0
          = (Ok ([Sample.server "k"], (Sample.found, [])), w1)) as Hg
    by (vm_compute; reflexivity).
  assert (enrich (U := Sample.utils) [Sample.server "k"] (Sample.found, []) w1
          = (Ok Sample.enriched, w1)) as He by (vm_compute; reflexivity).
  split; [exact Hg|].
  destruct (matches_written_before_pointer_key (U := Sample.utils)
              cfg kw Sample.w0 _ _ w1 w1 Sample.enriched "/out"
              eq_refl eq_refl Hg He (λ H, nil_cons (eq_sym H)))
    as (w' & Hrun & Hfs).
  exists w'. split; [exact Hrun|]. exact (mk_is_Some _ _ Hfs).
Defined.

Lemma output_twice_appends_witness :
  ∃ w1 w2,
    output (U := Sample.utils) Sample.cc Sample.enriched Sample.w0 = (Ok tt, w1)
    ∧ output (U := Sample.utils) Sample.cc Sample.enriched w1 = (Ok tt, w2)
    ∧ is_Some (fs w2 !! path_join "/out" "matches.json").
Proof.
  assert ("/var/pointer" ≠ path_join "/out" "matches.json") as Hne
    by (intros Heq; vm_compute in Heq; discriminate Heq).
  destruct (output_twice_appends (U := Sample.utils) Sample.cc Sample.enriched
              Sample.enriched Sample.w0 "/out" "/var/pointer" eq_refl eq_refl Hne)
    as (w1 & w2 & H1 & H2 & Hfs).
  exists w1, w2. split; [exact H1|]. split; [exact H2|]. exact (mk_is_Some _ _ Hfs).
Defined.

Lemma pointer_read_back_witness :
  let w' := (keep_last_timestamp Sample.cc Sample.enriched Sample.w0).2 in
  read_file (Utils := Sample.utils) (Some (Str.line "30")) = Ok (Some ["30"], false)
  ∧ parse_rfc3339_ns (Utils := Sample.utils) "30" = Ok 30
  ∧ determine_start_date (U := Sample.utils) Sample.cc (Sample.kw false 99) w'
    = (Ok (Some 30), w').
Proof.
  intros w'.
  assert (read_file (Utils := Sample.utils) (Some (Str.line "30"))
          = Ok (Some ["30"], false)) as Hread by (vm_compute; reflexivity).
  assert (parse_rfc3339_ns (Utils := Sample.utils) "30" = Ok 30) as Hparse
    by (vm_compute; reflexivity).
  split; [exact Hread|]. split; [exact Hparse|].
  exact (pointer_read_back (U := Sample.utils) Sample.cc (Sample.kw false 99)
           Sample.enriched (Document "30" "good.org") "/var/pointer" Sample.w0
           "30" [] false 30 eq_refl eq_refl eq_refl Hread Hparse).
Defined.


(** ** Fetching the indicators *)

Lemma constant_ret {A} (a : A) : constant_cmd (mret a).
Proof. by exists (Ok a). Qed.
Lemma constant_raise {A} e : constant_cmd (@raise A e).
Proof. by exists (Raise e). Qed.
Lemma constant_lift {A} (r : res A) : constant_cmd (lift r).
Proof. by exists r. Qed.

Lemma constant_bind {A B} (m : M A) (f : A → M B) :
  constant_cmd m → (∀ a, constant_cmd (f a)) → constant_cmd (m ≫= f).
Proof.
  intros [[a|e] Hm] Hf.
  - destruct (Hf a) as [r Hr]. exists r. intros w.
    by rewrite bind_unfold, Hm, Hr.
  - exists (Raise e). intros w. by rewrite bind_unfold, Hm.
Qed.

Lemma constant_for_each {A S} (body : S → A → M S) l s :
  (∀ s x, constant_cmd (body s x)) → constant_cmd (for_each body l s).
Proof.
  intros Hbody. revert s. induction l as [|x l IH]; intros s; simpl.
  - apply constant_ret.
  - apply constant_bind; [apply Hbody|apply IH].
Qed.

Lemma constant_eq {A} (m : M A) w r w' w0 :
  constant_cmd m → m w = (r, w') → w' = w ∧ m w0 = (r, w0).
Proof. intros [r0 Hm]. rewrite Hm. intros [= <- <-]. by rewrite Hm. Qed.

Lemma rev_app_append s acc t :
  String.rev_app s acc +:+ t = String.rev_app s (acc +:+ t).
Proof. revert acc. induction s as [|c s IH]; intros acc; [done|]. apply IH. Qed.

Lemma split_go_cons sep cur s :
  ∃ a rest, Str.split_go sep cur s = a :: rest.
Proof.
  revert cur. induction s as [|c s IH]; intros cur; simpl; [by eauto|].
  destruct (Ascii.eqb c sep); eauto.
Qed.

Lemma join_cons sep a b rest :
  join sep (a :: b :: rest) = a +:+ String sep (join sep (b :: rest)).
Proof. done. Qed.

Lemma join_split_go sep cur s :
  join sep (Str.split_go sep cur s) = String.rev cur +:+ s.
Proof.
  revert cur. induction s as [|c s IH]; intros cur; simpl.
  - by rewrite app_empty_r.
  - destruct (Ascii.eqb c sep) eqn:Hc.
    + apply Ascii.eqb_eq in Hc as ->.
      destruct (split_go_cons sep "" s) as (a & rest & Hs).
      specialize (IH ""). rewrite Hs in IH |- *.
      change (String.rev "" +:+ s) with s in IH.
      by rewrite join_cons, IH.
    + rewrite IH. unfold String.rev. simpl. rewrite !rev_app_append. reflexivity.
Qed.

(** [sep.join(s.split(sep))] is [s]. *)
Lemma join_split sep s : join sep (Str.split sep s) = s.
Proof. unfold Str.split. by rewrite join_split_go. Qed.

Lemma length_split_go sep cur s :
  length (Str.split_go sep cur s) = S (occurrences sep s).
Proof.
  revert cur. induction s as [|c s IH]; intros cur; simpl; [done|].
  destruct (Ascii.eqb c sep); simpl; by rewrite IH.
Qed.

Lemma length_split sep s : length (Str.split sep s) = S (occurrences sep s).
Proof. apply length_split_go. Qed.

Lemma contains_occurrences sep s :
  Str.contains sep s = true ↔ occurrences sep s ≠ 0%nat.
Proof.
  induction s as [|c s IH]; simpl; [done|].
  destruct (Ascii.eqb c sep); simpl; [done|apply IH].
Qed.

Section fetching.
Context {U : Utils}.

Lemma split2_two sep s :
  occurrences sep s = 1%nat →
  ∃ a b, s = a +:+ String sep b ∧ ∀ w, split2 sep s w = (Ok (a, b), w).
Proof.
  intros Hocc. pose proof (length_split sep s) as Hlen. rewrite Hocc in Hlen.
  pose proof (join_split sep s) as Hjoin. unfold split2.
  destruct (Str.split sep s) as [|a [|b [|c rest]]]; try done.
  exists a, b. split; [by rewrite <-Hjoin|done].
Qed.

Lemma split2_other sep s w :
  occurrences sep s ≠ 1%nat → split2 sep s w = (Raise ValueError, w).
Proof.
  intros Hocc. pose proof (length_split sep s) as Hlen. unfold split2.
  destruct (Str.split sep s) as [|a [|b [|c rest]]]; try done.
  simpl in Hlen. congruence.
Qed.

Lemma constant_split2 sep s : constant_cmd (split2 sep s).
Proof.
  unfold split2. destruct (Str.split sep s) as [|a [|b [|c rest]]];
    auto using constant_ret, constant_raise.
Qed.

Lemma constant_bucket new a : constant_cmd (bucket new a).
Proof.
  unfold bucket.
  repeat case_decide;
    repeat first
      [ apply constant_ret | apply constant_lift | apply constant_split2
      | apply constant_bind; [|intros ?]
      | match goal with |- constant_cmd (let '(_, _) := ?x in _) => destruct x end
      | match goal with |- constant_cmd (if ?x then _ else _) => destruct x end ].
Qed.

Lemma constant_gather_iocs cfg : constant_cmd (gather_iocs cfg).
Proof.
  unfold gather_iocs, connect_with_args, fetch.
  apply constant_bind.
  - apply constant_for_each. intros s x.
    apply constant_bind; [apply constant_lift|intros ?; apply constant_ret].
  - intros conns. apply constant_for_each. intros s x.
    apply constant_bind; [apply constant_lift|intros attrs].
    apply constant_for_each. intros ? ?. apply constant_bucket.
Qed.

(** X12.  The [fetch_iocs] of the subcommands asks the servers and sorts
    the values before it looks at any file: when a server fails, or a
    value is not of the shape of its type, the command stops with that
    exception and leaves the world untouched, both files included. *)
Theorem failed_fetch_touches_nothing cfg w e :
  (gather_iocs cfg w).1 = Raise e → fetch_iocs cfg w = (Raise e, w).
Proof.
  intros Hg. destruct (constant_gather_iocs cfg) as [r Hr].
  rewrite Hr in Hg. simpl in Hg. subst r.
  unfold fetch_iocs. by rewrite (bind_raise _ _ _ _ _ (Hr w)).
Qed.

(** X13.  What becomes of a [url] attribute depends on the colons of its
    network location.  Without a colon the location goes to the addresses
    when it is one and to the domains otherwise; with one colon the part
    before it is kept only when it is an address, so a host name with a
    port is dropped; with two colons or more, as in an IPv6 location with
    a port, the unpacking of line 98 fails and the command stops. *)
Theorem url_attribute_by_colons new a w d :
  type a = "url" →
  netloc (value a) = Ok d →
  (occurrences ":" d = 0%nat →
   bucket new a w
   = (Ok (if validIPAddress d then (new.1, new.2 ++ [d])
          else (new.1 ++ [d], new.2)), w))
  ∧ (occurrences ":" d = 1%nat →
     ∃ host port,
       d = host +:+ String ":" port
       ∧ bucket new a w
         = (Ok (if validIPAddress host then (new.1, new.2 ++ [host]) else new), w))
  ∧ ((2 ≤ occurrences ":" d)%nat → bucket new a w = (Raise ValueError, w)).
Proof.
  intros Htype Hloc.
  assert (bucket new a w
          = (if Str.contains ":" d then
               '(ip_token, _) ← split2 ":" d;
               mret (if validIPAddress ip_token
                     then (new.1, new.2 ++ [ip_token]) else new)
             else
               mret (if validIPAddress d then (new.1, new.2 ++ [d])
                     else (new.1 ++ [d], new.2))) w) as ->.
  { unfold bucket. rewrite Htype. simpl.
    rewrite bind_unfold. unfold lift. by rewrite Hloc. }
  pose proof (contains_occurrences ":" d) as Hc.
  split_and!.
  - intros Hocc. destruct (Str.contains ":" d); [|done].
    destruct Hc as [Hc _]. by destruct (Hc eq_refl).
  - intros Hocc. destruct (Str.contains ":" d) eqn:Hcon.
    + destruct (split2_two ":" d Hocc) as (host & port & Hd & Hsplit).
      exists host, port. split; [done|]. by rewrite bind_unfold, Hsplit.
    + destruct Hc as [_ Hc]. assert (false = true) by (apply Hc; lia). done.
  - intros Hocc. destruct (Str.contains ":" d) eqn:Hcon.
    + rewrite bind_unfold, split2_other by lia. done.
    + destruct Hc as [_ Hc]. assert (false = true) by (apply Hc; lia). done.
Qed.

End fetching.

Lemma failed_fetch_touches_nothing_witness :
  let cfg := {| correlation := Sample.cc; misp_servers := [Sample.odd_server] |} in
  (gather_iocs (U := Sample.utils) cfg Sample.w0).1 = Raise ValueError
  ∧ fetch_iocs (U := Sample.utils) cfg Sample.w0 = (Raise ValueError, Sample.w0).
Proof.
  intros cfg.
  assert ((gather_iocs (U := Sample.utils) cfg Sample.w0).1 = Raise ValueError) as Hg
    by (vm_compute; reflexivity).
  split; [exact Hg|].
  exact (failed_fetch_touches_nothing (U := Sample.utils) cfg Sample.w0 ValueError Hg).
Defined.

Lemma url_attribute_by_colons_witness :
  let named := Attribute "url" "http://evil.example:8080/x" in
  let v6 := Attribute "url" "http://[::1]:80/" in
  netloc (Utils := Sample.utils) (value named) = Ok "evil.example:8080"
  ∧ netloc (Utils := Sample.utils) (value v6) = Ok "[::1]:80"
  ∧ (∃ host port,
       "evil.example:8080" = host +:+ String ":" port
       ∧ bucket (U := Sample.utils) ([], []) named Sample.w0
         = (Ok (if validIPAddress (Utils := Sample.utils) host
                then ([], [] ++ [host]) else ([], [])), Sample.w0))
  ∧ bucket (U := Sample.utils) ([], []) v6 Sample.w0 = (Raise ValueError, Sample.w0).
Proof.
  intros named v6.
  assert (netloc (Utils := Sample.utils) (value named) = Ok "evil.example:8080")
    as Hn by (vm_compute; reflexivity).
  assert (netloc (Utils := Sample.utils) (value v6) = Ok "[::1]:80")
    as H6 by (vm_compute; reflexivity).
  assert (occurrences ":" "evil.example:8080" = 1%nat) as H1
    by (vm_compute; reflexivity).
  assert ((2 ≤ occurrences ":" "[::1]:80")%nat) as H2
    by (vm_compute; apply le_S, le_n).
  split; [exact Hn|]. split; [exact H6|]. split.
  - exact (proj1 (proj2 (url_attribute_by_colons (U := Sample.utils) ([], []) named
                           Sample.w0 _ eq_refl Hn)) H1).
  - exact (proj2 (proj2 (url_attribute_by_colons (U := Sample.utils) ([], []) v6
                           Sample.w0 _ eq_refl H6)) H2).
Defined.

(** ** Running [fetch_iocs] again *)

Lemma strip_clean l : Forall clean l → Str.strip <$> l = l.
Proof.
  induction 1 as [|v l Hv _ IH]; [done|].
  rewrite fmap_cons, IH. unfold clean in Hv. by rewrite Hv.
Qed.

Lemma list_to_set_list_set l : (list_to_set (list_set l) : gset string) = list_to_set l.
Proof. unfold list_set. apply list_to_set_elements_L. Qed.

Lemma clean_list_set l : Forall clean l → Forall clean (list_set l).
Proof.
  rewrite !Forall_forall. intros Hl v Hv. by apply Hl, elem_of_list_set.
Qed.

Section settling.
Context {U : Utils}.

Lemma attributes_old_lookup file w w' :
  fs w !! file = fs w' !! file →
  (attributes_old file w).1 = (attributes_old file w').1.
Proof.
  intros Hsame. unfold attributes_old. rewrite !bind_unfold. unfold is_file.
  rewrite Hsame. destruct (bool_decide _); [|done].
  rewrite !bind_unfold. unfold read. rewrite Hsame.
  by destruct (read_file (fs w' !! file)) as [[[lines|] tag]|e].
Qed.

Lemma attributes_old_read file w bytes lines tag :
  fs w !! file = Some bytes →
  read_file (Some bytes) = Ok (Some lines, tag) →
  attributes_old file w = (Ok (Str.strip <$> lines), w).
Proof.
  intros Hfile Hread. unfold attributes_old. rewrite bind_unfold. unfold is_file.
  rewrite Hfile, bool_decide_true by eauto.
  rewrite bind_unfold. unfold read. by rewrite Hfile, Hread.
Qed.

Lemma rewrite_if_changed_other file old new w p :
  p ≠ file → fs (rewrite_if_changed file old new w).2 !! p = fs w !! p.
Proof.
  intros Hp.
  destruct (decide ((list_to_set old : gset string) = list_to_set new)) as [Heq|Hne].
  - by rewrite rewrite_if_changed_same.
  - rewrite rewrite_if_changed_differ by done. simpl. by apply lookup_insert_ne.
Qed.

Lemma rewrite_settles file old new w tag :
  Forall clean new →
  read_file (Some (joined (Str.line <$> list_set new))) = Ok (Some (list_set new), tag) →
  (attributes_old file w).1 = Ok old →
  ∃ old', (attributes_old file (rewrite_if_changed file old new w).2).1 = Ok old'
          ∧ (list_to_set old' : gset string) = list_to_set new.
Proof.
  intros Hclean Hread Hold.
  destruct (decide ((list_to_set old : gset string) = list_to_set new)) as [Heq|Hne].
  - rewrite rewrite_if_changed_same by done. eauto.
  - rewrite rewrite_if_changed_differ by done. exists (list_set new). split.
    + erewrite attributes_old_read; [|apply lookup_insert_eq|exact Hread].
      simpl. by rewrite strip_clean by by apply clean_list_set.
    + apply list_to_set_list_set.
Qed.

Lemma refresh_raise key file new w e :
  (attributes_old file w).1 = Raise e →
  refresh key (Some file) new w = (Raise e, w).
Proof.
  intros Hold. pose proof (attributes_old_world file w) as Hw.
  destruct (attributes_old file w) as [r w0] eqn:Ha. simpl in *. subst r w0.
  unfold refresh. simpl. rewrite bind_unfold. simpl.
  by rewrite (bind_raise _ _ _ _ _ Ha).
Qed.

(** The run on a disk where both files hold what the servers give:
    nothing is written, and the two messages are logged. *)
Lemma fetch_iocs_unchanged cfg w new dfile ifile old_d old_i :
  gather_iocs cfg w = (Ok new, w) →
  malicious_domains_file (correlation cfg) = Some dfile →
  malicious_ips_file (correlation cfg) = Some ifile →
  (attributes_old dfile w).1 = Ok old_d →
  (list_to_set old_d : gset string) = list_to_set new.1 →
  (attributes_old ifile w).1 = Ok old_i →
  (list_to_set old_i : gset string) = list_to_set new.2 →
  fetch_iocs cfg w
  = (Ok tt, World (fs w) (dirs w)
              (trace w ++ [Log DEBUG "Finished fetching of IOCs";
                           Log INFO (currently new old_i)])).
Proof.
  intros Hg Hd Hi Hold_d Hset_d Hold_i Hset_i.
  unfold fetch_iocs. rewrite (bind_ok _ _ _ _ _ Hg), Hd, Hi.
  rewrite (bind_ok _ _ _ _ _ (refresh_ok _ _ _ _ _ Hold_d)).
  rewrite (rewrite_if_changed_same _ _ _ _ Hset_d). simpl.
  rewrite (bind_ok _ _ _ _ _ (refresh_ok _ _ _ _ _ Hold_i)).
  rewrite (rewrite_if_changed_same _ _ _ _ Hset_i). simpl.
  rewrite bind_unfold. simpl. unfold emit. simpl. by rewrite <-app_assoc.
Qed.

(** C10, as amended.  Each file of indicators is opened for rewriting
    exactly when the set of the values it holds, its lines stripped,
    differs from the set of the values fetched, and then holds the values
    fetched; when the sets are equal nothing is written.  A run that
    follows, with the servers giving what they gave, opens neither file
    and leaves the disk as it is, provided that the values fetched carry
    no white space around them, that the two files are distinct and that
    the reader gives back the lines that were written. *)
Theorem indicator_files_rewritten_iff_changed
    cfg w new w1 dfile ifile old_d old_i tag_d tag_i :
  gather_iocs cfg w = (Ok new, w1) →
  malicious_domains_file (correlation cfg) = Some dfile →
  malicious_ips_file (correlation cfg) = Some ifile →
  (attributes_old dfile w1).1 = Ok old_d →
  (attributes_old ifile (rewrite_if_changed dfile old_d new.1 w1).2).1 = Ok old_i →
  ∃ written_d written_i w',
    fetch_iocs cfg w = (Ok tt, w')
    ∧ trace w' = trace w1 ++ written_d ++ written_i
                 ++ [Log DEBUG "Finished fetching of IOCs";
                     Log INFO (currently new old_i)]
    ∧ (written_d = [] ↔ (list_to_set old_d : gset string) = list_to_set new.1)
    ∧ (written_d ≠ [] → written_d = rewriting dfile new.1)
    ∧ (written_i = [] ↔ (list_to_set old_i : gset string) = list_to_set new.2)
    ∧ (written_i ≠ [] →
       written_i = rewriting ifile new.2
       ∧ fs w' !! ifile = Some (joined (Str.line <$> list_set new.2)))
    ∧ ((list_to_set old_d : gset string) = list_to_set new.1 →
       (list_to_set old_i : gset string) = list_to_set new.2 →
       fs w' = fs w)
    ∧ (dfile ≠ ifile →
       Forall clean (new.1 ++ new.2) →
       read_file (Some (joined (Str.line <$> list_set new.1)))
       = Ok (Some (list_set new.1), tag_d) →
       read_file (Some (joined (Str.line <$> list_set new.2)))
       = Ok (Some (list_set new.2), tag_i) →
       ∃ w'' message,
         fetch_iocs cfg w' = (Ok tt, w'')
         ∧ fs w'' = fs w'
         ∧ trace w'' = trace w' ++ [Log DEBUG "Finished fetching of IOCs";
                                    Log INFO message]).
Proof.
  intros Hg Hd Hi Hold_d Hold_i.
  destruct (constant_eq _ _ _ _ w (constant_gather_iocs cfg) Hg) as [-> _].
  set (wd := (rewrite_if_changed dfile old_d new.1 w).2) in *.
  set (wi := (rewrite_if_changed ifile old_i new.2 wd).2).
  assert (fetch_iocs cfg w
          = (Ok tt, World (fs wi) (dirs wi)
                      (trace wi ++ [Log DEBUG "Finished fetching of IOCs";
                                    Log INFO (currently new old_i)]))) as Hrun.
  { unfold fetch_iocs. rewrite (bind_ok _ _ _ _ _ Hg). rewrite Hd, Hi.
    rewrite (bind_ok _ _ _ _ _ (refresh_ok _ _ _ _ _ Hold_d)).
    fold wd. rewrite (bind_ok _ _ _ _ _ (refresh_ok _ _ _ _ _ Hold_i)).
    fold wi. rewrite bind_unfold. simpl. unfold emit. simpl.
    by rewrite <-app_assoc. }
  (* the run that follows *)
  assert (dfile ≠ ifile →
          Forall clean (new.1 ++ new.2) →
          read_file (Some (joined (Str.line <$> list_set new.1)))
          = Ok (Some (list_set new.1), tag_d) →
          read_file (Some (joined (Str.line <$> list_set new.2)))
          = Ok (Some (list_set new.2), tag_i) →
          ∀ w', fs w' = fs wi →
          ∃ w'' message,
            fetch_iocs cfg w' = (Ok tt, w'')
            ∧ fs w'' = fs w'
            ∧ trace w'' = trace w' ++ [Log DEBUG "Finished fetching of IOCs";
                                       Log INFO message]) as Hagain.
  { intros Hne [Hcd Hci]%Forall_app Hrd Hri w' Hfs.
    destruct (rewrite_settles dfile old_d new.1 w tag_d Hcd Hrd Hold_d)
      as (old_d' & Hold_d' & Hset_d). fold wd in Hold_d'.
    destruct (rewrite_settles ifile old_i new.2 wd tag_i Hci Hri Hold_i)
      as (old_i' & Hold_i' & Hset_i). fold wi in Hold_i'.
    assert ((attributes_old dfile w').1 = Ok old_d') as Hagain_d.
    { rewrite <-Hold_d'. apply attributes_old_lookup. rewrite Hfs.
      subst wi. by apply rewrite_if_changed_other. }
    assert ((attributes_old ifile w').1 = Ok old_i') as Hagain_i.
    { rewrite <-Hold_i'. apply attributes_old_lookup. by rewrite Hfs. }
    destruct (constant_eq _ _ _ _ w' (constant_gather_iocs cfg) Hg) as [_ Hg'].
    exists (World (fs w') (dirs w')
              (trace w' ++ [Log DEBUG "Finished fetching of IOCs";
                            Log INFO (currently new old_i')])),
           (currently new old_i').
    split; [|split; reflexivity].
    by apply (fetch_iocs_unchanged cfg w' new dfile ifile old_d' old_i'). }
  destruct (decide ((list_to_set old_d : gset string) = list_to_set new.1))
    as [Hed|Hnd];
    destruct (decide ((list_to_set old_i : gset string) = list_to_set new.2))
    as [Hei|Hni].
  - exists [], []. eexists. split; [exact Hrun|].
    split_and!; try done.
    + subst wi. rewrite (rewrite_if_changed_same _ _ _ _ Hei). simpl.
      subst wd. by rewrite (rewrite_if_changed_same _ _ _ _ Hed).
    + intros _ _. simpl. subst wi. rewrite (rewrite_if_changed_same _ _ _ _ Hei).
      subst wd. by rewrite (rewrite_if_changed_same _ _ _ _ Hed).
    + intros Hne Hclean Hrd Hri. by apply Hagain.
  - exists [], (rewriting ifile new.2). eexists. split; [exact Hrun|].
    split_and!; try done.
    + subst wi. rewrite (rewrite_if_changed_differ _ _ _ _ Hni). simpl.
      subst wd. rewrite (rewrite_if_changed_same _ _ _ _ Hed). simpl.
      by rewrite <-app_assoc.
    + intros _. split; [done|]. simpl. subst wi.
      rewrite (rewrite_if_changed_differ _ _ _ _ Hni). apply lookup_insert_eq.
    + intros Hne Hclean Hrd Hri. by apply Hagain.
  - exists (rewriting dfile new.1), []. eexists. split; [exact Hrun|].
    split_and!; try done.
    + subst wi. rewrite (rewrite_if_changed_same _ _ _ _ Hei). simpl.
      subst wd. rewrite (rewrite_if_changed_differ _ _ _ _ Hnd). simpl.
      by rewrite <-!app_assoc.
    + intros Hne Hclean Hrd Hri. by apply Hagain.
  - exists (rewriting dfile new.1), (rewriting ifile new.2). eexists.
    split; [exact Hrun|].
    split_and!; try done.
    + subst wi. rewrite (rewrite_if_changed_differ _ _ _ _ Hni). simpl.
      subst wd. rewrite (rewrite_if_changed_differ _ _ _ _ Hnd). simpl.
      by rewrite <-!app_assoc.
    + intros _. split; [done|]. simpl. subst wi.
      rewrite (rewrite_if_changed_differ _ _ _ _ Hni). apply lookup_insert_eq.
    + intros Hne Hclean Hrd Hri. by apply Hagain.
Qed.

(** X14.  A second run of the [fetch_iocs] of the subcommands, against
    servers that give what they gave, writes nothing: when the values
    carry no white space around them, the two files are distinct and the
    reader gives back the lines that were written, the run after a
    successful one leaves the disk as it found it and only logs its two
    messages. *)
Theorem fetch_iocs_settles cfg w w1 new dfile ifile tag_d tag_i :
  fetch_iocs cfg w = (Ok tt, w1) →
  (gather_iocs cfg w).1 = Ok new →
  malicious_domains_file (correlation cfg) = Some dfile →
  malicious_ips_file (correlation cfg) = Some ifile →
  dfile ≠ ifile →
  Forall clean (new.1 ++ new.2) →
  read_file (Some (joined (Str.line <$> list_set new.1)))
  = Ok (Some (list_set new.1), tag_d) →
  read_file (Some (joined (Str.line <$> list_set new.2)))
  = Ok (Some (list_set new.2), tag_i) →
  ∃ w2 message,
    fetch_iocs cfg w1 = (Ok tt, w2)
    ∧ fs w2 = fs w1
    ∧ trace w2 = trace w1 ++ [Log DEBUG "Finished fetching of IOCs";
                              Log INFO message].
Proof.
  intros Hrun Hg Hd Hi Hne Hclean Hrd Hri.
  destruct (constant_gather_iocs cfg) as [r Hr].
  rewrite Hr in Hg. simpl in Hg. subst r.
  apply Forall_app in Hclean as [Hcd Hci].
  (* the first run *)
  unfold fetch_iocs in Hrun. rewrite (bind_ok _ _ _ _ _ (Hr w)), Hd, Hi in Hrun.
  destruct ((attributes_old dfile w).1) as [old_d|e] eqn:Hold_d.
  2: { by rewrite (bind_raise _ _ _ _ _ (refresh_raise _ _ _ _ _ Hold_d)) in Hrun. }
  rewrite (bind_ok _ _ _ _ _ (refresh_ok _ _ _ _ _ Hold_d)) in Hrun.
  set (wd := (rewrite_if_changed dfile old_d new.1 w).2) in *.
  destruct ((attributes_old ifile wd).1) as [old_i|e] eqn:Hold_i.
  2: { by rewrite (bind_raise _ _ _ _ _ (refresh_raise _ _ _ _ _ Hold_i)) in Hrun. }
  rewrite (bind_ok _ _ _ _ _ (refresh_ok _ _ _ _ _ Hold_i)) in Hrun.
  set (wi := (rewrite_if_changed ifile old_i new.2 wd).2) in *.
  assert (fs w1 = fs wi) as Hfs1.
  { rewrite bind_unfold in Hrun. simpl in Hrun. by injection Hrun as <-. }
  clear Hrun.
  (* what the files hold after it *)
  destruct (rewrite_settles dfile old_d new.1 w tag_d Hcd Hrd Hold_d)
    as (old_d' & Hold_d' & Hset_d). fold wd in Hold_d'.
  destruct (rewrite_settles ifile old_i new.2 wd tag_i Hci Hri Hold_i)
    as (old_i' & Hold_i' & Hset_i). fold wi in Hold_i'.
  assert ((attributes_old dfile w1).1 = Ok old_d') as Hagain_d.
  { rewrite <-Hold_d'. apply attributes_old_lookup. rewrite Hfs1.
    subst wi. by apply rewrite_if_changed_other. }
  assert ((attributes_old ifile w1).1 = Ok old_i') as Hagain_i.
  { rewrite <-Hold_i'. apply attributes_old_lookup. by rewrite Hfs1. }
  (* the second run *)
  exists (World (fs w1) (dirs w1)
            (trace w1 ++ [Log DEBUG "Finished fetching of IOCs";
                          Log INFO (currently new old_i')])),
         (currently new old_i').
  split; [|split; reflexivity].
  unfold fetch_iocs. rewrite (bind_ok _ _ _ _ _ (Hr w1)), Hd, Hi.
  rewrite (bind_ok _ _ _ _ _ (refresh_ok _ _ _ _ _ Hagain_d)).
  rewrite (rewrite_if_changed_same _ _ _ _ Hset_d). simpl.
  rewrite (bind_ok _ _ _ _ _ (refresh_ok _ _ _ _ _ Hagain_i)).
  rewrite (rewrite_if_changed_same _ _ _ _ Hset_i). simpl.
  rewrite bind_unfold. simpl. unfold emit. simpl. by rewrite <-app_assoc.
Qed.

End settling.

Lemma indicator_files_rewritten_iff_changed_witness :
  let cfg := Sample.cfg "k" in
  let w' := (fetch_iocs (U := Sample.utils) cfg Sample.w0).2 in
  gather_iocs (U := Sample.utils) cfg Sample.w0
    = (Ok (["evil.com"], ["10.0.0.1"]), Sample.w0)
  ∧ (attributes_old (U := Sample.utils) "/etc/domains" Sample.w0).1
    = Ok ["evil.com"; "Other.org"]
  ∧ fetch_iocs (U := Sample.utils) cfg Sample.w0 = (Ok tt, w')
  ∧ fs w' !! "/etc/domains" = Some ("evil.com" +:+ Sample.nl)
  ∧ fs w' !! "/etc/ips" = Some ("10.0.0.1" +:+ Sample.nl)
  ∧ ∃ w'' message,
      fetch_iocs (U := Sample.utils) cfg w' = (Ok tt, w'')
      ∧ fs w'' = fs w'
      ∧ trace w'' = trace w' ++ [Log DEBUG "Finished fetching of IOCs";
                                 Log INFO message].
Proof.
  intros cfg w'.
  assert (gather_iocs (U := Sample.utils) cfg Sample.w0
          = (Ok (["evil.com"], ["10.0.0.1"]), Sample.w0)) as Hg
    by (vm_compute; reflexivity).
  assert ((attributes_old (U := Sample.utils) "/etc/domains" Sample.w0).1
          = Ok ["evil.com"; "Other.org"]) as Hd by (vm_compute; reflexivity).
  assert ((attributes_old (U := Sample.utils) "/etc/ips"
             (rewrite_if_changed "/etc/domains" ["evil.com"; "Other.org"]
                ["evil.com"] Sample.w0).2).1
          = Ok ["10.0.0.0/8"; "not an address"; "192.168.1.7"]) as Hi
    by (vm_compute; reflexivity).
  assert (fetch_iocs (U := Sample.utils) cfg Sample.w0 = (Ok tt, w')) as Hrun
    by (vm_compute; reflexivity).
  assert (Forall clean (["evil.com"] ++ ["10.0.0.1"])) as Hclean.
  { constructor; [vm_compute; reflexivity|].
    constructor; [vm_compute; reflexivity|constructor]. }
  assert (read_file (Utils := Sample.utils)
            (Some (joined (Str.line <$> list_set ["evil.com"])))
          = Ok (Some (list_set ["evil.com"]), false)) as Hrd
    by (vm_compute; reflexivity).
  assert (read_file (Utils := Sample.utils)
            (Some (joined (Str.line <$> list_set ["10.0.0.1"])))
          = Ok (Some (list_set ["10.0.0.1"]), false)) as Hri
    by (vm_compute; reflexivity).
  split; [exact Hg|]. split; [exact Hd|]. split; [exact Hrun|].
  split; [vm_compute; reflexivity|]. split; [vm_compute; reflexivity|].
  destruct (indicator_files_rewritten_iff_changed (U := Sample.utils)
              cfg Sample.w0 (["evil.com"], ["10.0.0.1"]) Sample.w0
              "/etc/domains" "/etc/ips" _ _ false false Hg eq_refl eq_refl Hd Hi)
    as (written_d & written_i & wx & Hrunx & _ & _ & _ & _ & _ & _ & Hagain).
  assert (wx = w') as Hsame
    by exact (f_equal snd (eq_trans (eq_sym Hrunx) Hrun)).
  rewrite Hsame in Hagain.
  exact (Hagain (λ H, ltac:(discriminate H)) Hclean Hrd Hri).
Defined.

(** Against C10 as first stated: the server gives a domain with a space
    before it.  The first run writes the value as it is; the reader of
    the next run strips the line, so that the set of the file differs
    from the set fetched at every run, and the file is opened and
    written again although the servers give what they gave. *)
Lemma padded_value_is_rewritten_at_every_run :
  let cfg := {| correlation := Sample.cc; misp_servers := [Sample.padded_server] |} in
  let w1 := (fetch_iocs (U := Sample.utils) cfg Sample.w0).2 in
  let w2 := (fetch_iocs (U := Sample.utils) cfg w1).2 in
  (fetch_iocs (U := Sample.utils) cfg Sample.w0).1 = Ok tt
  ∧ (gather_iocs (U := Sample.utils) cfg w1).1
    = (gather_iocs (U := Sample.utils) cfg Sample.w0).1
  ∧ fs w1 !! "/etc/domains" = Some (" evil.com" +:+ Sample.nl)
  ∧ (attributes_old (U := Sample.utils) "/etc/domains" w1).1 = Ok ["evil.com"]
  ∧ (fetch_iocs (U := Sample.utils) cfg w1).1 = Ok tt
  ∧ ∃ message,
      trace w2 = trace w1 ++ [OpenFile "/etc/domains" Truncate;
                              WriteText "/etc/domains" (" evil.com" +:+ Sample.nl);
                              Log DEBUG "Finished fetching of IOCs";
                              Log INFO message].
Proof.
  intros cfg w1 w2. split_and!; [vm_compute; reflexivity..|].
  eexists. vm_compute. reflexivity.
Qed.

Lemma fetch_iocs_settles_witness :
  let cfg := Sample.cfg "k" in
  let w1 := (fetch_iocs (U := Sample.utils) cfg Sample.w0).2 in
  fetch_iocs (U := Sample.utils) cfg Sample.w0 = (Ok tt, w1)
  ∧ (gather_iocs (U := Sample.utils) cfg Sample.w0).1
    = Ok (["evil.com"], ["10.0.0.1"])
  ∧ ∃ w2 message,
      fetch_iocs (U := Sample.utils) cfg w1 = (Ok tt, w2)
      ∧ fs w2 = fs w1
      ∧ trace w2 = trace w1 ++ [Log DEBUG "Finished fetching of IOCs";
                                Log INFO message].
Proof.
  intros cfg w1.
  assert (fetch_iocs (U := Sample.utils) cfg Sample.w0 = (Ok tt, w1)) as Hrun
    by (vm_compute; reflexivity).
  assert ((gather_iocs (U := Sample.utils) cfg Sample.w0).1
          = Ok (["evil.com"], ["10.0.0.1"])) as Hg by (vm_compute; reflexivity).
  assert (Forall clean (["evil.com"] ++ ["10.0.0.1"])) as Hclean.
  { constructor; [vm_compute; reflexivity|].
    constructor; [vm_compute; reflexivity|constructor]. }
  assert (read_file (Utils := Sample.utils)
            (Some (joined (Str.line <$> list_set ["evil.com"])))
          = Ok (Some (list_set ["evil.com"]), false)) as Hrd
    by (vm_compute; reflexivity).
  assert (read_file (Utils := Sample.utils)
            (Some (joined (Str.line <$> list_set ["10.0.0.1"])))
          = Ok (Some (list_set ["10.0.0.1"]), false)) as Hri
    by (vm_compute; reflexivity).
  split; [exact Hrun|]. split; [exact Hg|].
  exact (fetch_iocs_settles (U := Sample.utils) cfg Sample.w0 w1
           (["evil.com"], ["10.0.0.1"]) "/etc/domains" "/etc/ips" false false
           Hrun Hg eq_refl eq_refl (λ H, ltac:(discriminate H)) Hclean Hrd Hri).
Defined.

(** ** The [fetch_iocs] of pdnssoccli.py *)

Section main_fetching.
Context {U : Utils}.

Lemma constant_connect servers : constant_cmd (connect servers).
Proof.
  unfold connect. apply constant_for_each. intros s x.
  apply constant_bind; [apply constant_lift|intros ?; apply constant_ret].
Qed.

Lemma constant_search_all search conns : constant_cmd (search_all search conns).
Proof.
  unfold search_all. apply constant_for_each. intros s x.
  apply constant_bind; [apply constant_lift|intros ?; apply constant_ret].
Qed.

Lemma constant_run {A} (m : M A) w r w0 :
  constant_cmd m → (m w).1 = r → m w0 = (r, w0).
Proof. intros [r0 Hm] <-. by rewrite !Hm. Qed.

Lemma attributes_old_run file w old :
  (attributes_old file w).1 = Ok old → attributes_old file w = (Ok old, w).
Proof.
  intros Hold. pose proof (attributes_old_world file w) as Hw.
  destruct (attributes_old file w) as [r w']. simpl in *. by subst.
Qed.

(** The command up to the look-up of the file of addresses at line 351:
    the world it leaves has the file of domains rewritten if it was to
    be. *)
Lemma main_fetch_iocs_domains cc servers w conns dfile old_d new_d
    (rest : list misp → M unit) :
  (connect servers w).1 = Ok conns →
  malicious_domains_file cc = Some dfile →
  (attributes_old dfile w).1 = Ok old_d →
  (search_all search_domains conns w).1 = Ok new_d →
  (misp_connections ← connect servers;
   domains_file ← item "malicious_domains_file" (malicious_domains_file cc);
   domain_attributes_old ← attributes_old domains_file;
   domain_attributes_new ← search_all search_domains misp_connections;
   rewrite_if_changed domains_file domain_attributes_old domain_attributes_new;;
   rest misp_connections) w
  = rest conns (rewrite_if_changed dfile old_d new_d w).2.
Proof.
  intros Hc Hd Hold Hnew.
  rewrite (bind_ok _ _ _ _ _ (constant_run _ _ _ w (constant_connect _) Hc)).
  rewrite Hd. simpl. rewrite bind_unfold. simpl.
  rewrite (bind_ok _ _ _ _ _ (attributes_old_run _ _ _ Hold)).
  rewrite (bind_ok _ _ _ _ _ (constant_run _ _ _ w (constant_search_all _ _) Hnew)).
  rewrite bind_unfold.
  destruct (decide ((list_to_set old_d : gset string) = list_to_set new_d)).
  - by rewrite rewrite_if_changed_same.
  - by rewrite rewrite_if_changed_differ.
Qed.

(** X15.  The [fetch_iocs] of pdnssoccli.py treats the file of domains
    and then the file of addresses, and asks every server for both: a
    file is opened for rewriting exactly when the set of its stripped
    lines differs from the set of the values the servers give, and a run
    that finds both sets equal leaves the world as it was. *)
Theorem main_fetch_iocs_rewrites_changed
    cc level servers w conns dfile ifile old_d new_d old_i new_i :
  (connect servers w).1 = Ok conns →
  malicious_domains_file cc = Some dfile →
  malicious_ips_file cc = Some ifile →
  (attributes_old dfile w).1 = Ok old_d →
  (search_all search_domains conns w).1 = Ok new_d →
  (attributes_old ifile (rewrite_if_changed dfile old_d new_d w).2).1 = Ok old_i →
  (search_all search_ips conns w).1 = Ok new_i →
  ∃ w',
    main_fetch_iocs (Some {| parsed_correlation := Some cc;
                             parsed_logging_level := Some level;
                             parsed_misp_servers := Some servers |}) w
    = (Ok tt, w')
    ∧ trace w'
      = trace w
        ++ (if decide ((list_to_set old_d : gset string) = list_to_set new_d)
            then [] else rewriting dfile new_d)
        ++ (if decide ((list_to_set old_i : gset string) = list_to_set new_i)
            then [] else rewriting ifile new_i)
    ∧ ((list_to_set old_d : gset string) = list_to_set new_d →
       (list_to_set old_i : gset string) = list_to_set new_i → w' = w).
Proof.
  intros Hc Hd Hi Hold_d Hnew_d Hold_i Hnew_i.
  set (wd := (rewrite_if_changed dfile old_d new_d w).2) in *.
  exists (rewrite_if_changed ifile old_i new_i wd).2. split.
  - unfold main_fetch_iocs, config_item. simpl.
    rewrite bind_unfold. simpl. rewrite bind_unfold. simpl.
    rewrite bind_unfold. simpl.
    rewrite (main_fetch_iocs_domains cc servers w conns dfile old_d new_d
               _ Hc Hd Hold_d Hnew_d).
    fold wd. rewrite Hi. simpl. rewrite bind_unfold. simpl.
    rewrite (bind_ok _ _ _ _ _ (attributes_old_run _ _ _ Hold_i)).
    rewrite (bind_ok _ _ _ _ _
               (constant_run _ _ _ wd (constant_search_all _ _) Hnew_i)).
    destruct (decide ((list_to_set old_i : gset string) = list_to_set new_i)).
    + by rewrite rewrite_if_changed_same.
    + by rewrite rewrite_if_changed_differ.
  - subst wd.
    destruct (decide ((list_to_set old_d : gset string) = list_to_set new_d))
      as [Hed|Hnd];
      destruct (decide ((list_to_set old_i : gset string) = list_to_set new_i))
      as [Hei|Hni];
      rewrite ?(rewrite_if_changed_same _ _ _ _ Hei),
        ?(rewrite_if_changed_differ _ _ _ _ Hni); simpl;
      rewrite ?(rewrite_if_changed_same _ _ _ _ Hed),
        ?(rewrite_if_changed_differ _ _ _ _ Hnd); simpl;
      rewrite ?app_nil_r, <-?app_assoc; split; done.
Qed.

(** X16.  In that command the servers are asked for the addresses only
    after the file of domains has been dealt with: when that search
    fails, the command stops with the exception and the file of domains
    stays as rewritten, where the command of the subcommands would have
    touched nothing. *)
Theorem main_fetch_iocs_fails_half_way
    cc level servers w conns dfile ifile old_d new_d old_i e :
  (connect servers w).1 = Ok conns →
  malicious_domains_file cc = Some dfile →
  malicious_ips_file cc = Some ifile →
  (attributes_old dfile w).1 = Ok old_d →
  (search_all search_domains conns w).1 = Ok new_d →
  (attributes_old ifile (rewrite_if_changed dfile old_d new_d w).2).1 = Ok old_i →
  (search_all search_ips conns w).1 = Raise e →
  main_fetch_iocs (Some {| parsed_correlation := Some cc;
                           parsed_logging_level := Some level;
                           parsed_misp_servers := Some servers |}) w
  = (Raise e, (rewrite_if_changed dfile old_d new_d w).2)
  ∧ ((list_to_set old_d : gset string) ≠ list_to_set new_d →
     fs (rewrite_if_changed dfile old_d new_d w).2 !! dfile
     = Some (joined (Str.line <$> list_set new_d))).
Proof.
  intros Hc Hd Hi Hold_d Hnew_d Hold_i Hnew_i.
  set (wd := (rewrite_if_changed dfile old_d new_d w).2) in *. split.
  - unfold main_fetch_iocs, config_item. simpl.
    rewrite bind_unfold. simpl. rewrite bind_unfold. simpl.
    rewrite bind_unfold. simpl.
    rewrite (main_fetch_iocs_domains cc servers w conns dfile old_d new_d
               _ Hc Hd Hold_d Hnew_d).
    fold wd. rewrite Hi. simpl. rewrite bind_unfold. simpl.
    rewrite (bind_ok _ _ _ _ _ (attributes_old_run _ _ _ Hold_i)).
    by rewrite (bind_raise _ _ _ _ _
                  (constant_run _ _ _ wd (constant_search_all _ _) Hnew_i)).
  - intros Hne. subst wd. rewrite rewrite_if_changed_differ by done.
    apply lookup_insert_eq.
Qed.

(** X17.  What [fetch_iocs] writes, [correlate] reads: once the file of
    domains has been rewritten with values that carry no white space
    around them, and the reader gives back the lines written, the
    domains that [correlate] builds from the file are the distinct values
    that were fetched. *)
Theorem fetched_domains_are_read_back cc conns file old new w tag :
  truthy (malicious_domains_file cc) = Some file →
  (list_to_set old : gset string) ≠ list_to_set new →
  Forall clean new →
  read_file (Some (joined (Str.line <$> list_set new)))
  = Ok (Some (list_set new), tag) →
  build_domain_attributes cc conns (rewrite_if_changed file old new w).2
  = (Ok (list_set new), (rewrite_if_changed file old new w).2).
Proof.
  intros Hfile Hne Hclean Hread.
  rewrite rewrite_if_changed_differ by done.
  unfold build_domain_attributes. rewrite Hfile.
  rewrite !bind_unfold. unfold read. simpl. rewrite lookup_insert_eq, Hread. simpl.
  rewrite strip_clean by by apply clean_list_set.
  unfold list_set at 1. by rewrite list_to_set_list_set.
Qed.

End main_fetching.


Lemma main_fetch_iocs_rewrites_changed_witness :
  let CONFIG := Some {| parsed_correlation := Some Sample.cc;
                        parsed_logging_level := Some "INFO";
                        parsed_misp_servers := Some [Sample.server "k"] |} in
  (attributes_old (U := Sample.utils) "/etc/domains" Sample.w0).1
  = Ok ["evil.com"; "Other.org"]
  ∧ (search_all (U := Sample.utils) search_domains [Sample.server "k"] Sample.w0).1
    = Ok ["evil.com"]
  ∧ ∃ w', main_fetch_iocs (U := Sample.utils) CONFIG Sample.w0 = (Ok tt, w')
          ∧ trace w' = trace Sample.w0
                       ++ rewriting "/etc/domains" ["evil.com"]
                       ++ rewriting "/etc/ips" ["10.0.0.1"].
Proof.
  intros CONFIG.
  assert ((connect (U := Sample.utils) [Sample.server "k"] Sample.w0).1
          = Ok [Sample.server "k"]) as Hc by (vm_compute; reflexivity).
  assert ((attributes_old (U := Sample.utils) "/etc/domains" Sample.w0).1
          = Ok ["evil.com"; "Other.org"]) as Hod by (vm_compute; reflexivity).
  assert ((search_all (U := Sample.utils) search_domains [Sample.server "k"]
             Sample.w0).1 = Ok ["evil.com"]) as Hnd by (vm_compute; reflexivity).
  assert ((attributes_old (U := Sample.utils) "/etc/ips"
             (rewrite_if_changed "/etc/domains" ["evil.com"; "Other.org"]
                ["evil.com"] Sample.w0).2).1
          = Ok ["10.0.0.0/8"; "not an address"; "192.168.1.7"]) as Hoi
    by (vm_compute; reflexivity).
  assert ((search_all (U := Sample.utils) search_ips [Sample.server "k"]
             Sample.w0).1 = Ok ["10.0.0.1"]) as Hni by (vm_compute; reflexivity).
  split; [exact Hod|]. split; [exact Hnd|].
  destruct (main_fetch_iocs_rewrites_changed (U := Sample.utils) Sample.cc "INFO"
              [Sample.server "k"] Sample.w0 _ "/etc/domains" "/etc/ips" _ _ _ _
              Hc eq_refl eq_refl Hod Hnd Hoi Hni) as (w' & Hrun & Htrace & _).
  exists w'. split; [exact Hrun|].
  refine (eq_trans Htrace _). vm_compute. reflexivity.
Defined.

Lemma main_fetch_iocs_fails_half_way_witness :
  let CONFIG := Some {| parsed_correlation := Some Sample.cc;
                        parsed_logging_level := Some "INFO";
                        parsed_misp_servers := Some [Sample.server ""] |} in
  (search_all (U := Sample.picky) search_ips [Sample.server ""] Sample.w0).1
  = Raise (External "the server rejects the key")
  ∧ (main_fetch_iocs (U := Sample.picky) CONFIG Sample.w0).1
    = Raise (External "the server rejects the key")
  ∧ fs (main_fetch_iocs (U := Sample.picky) CONFIG Sample.w0).2 !! "/etc/domains"
    = Some (joined (Str.line <$> list_set ["evil.com"])).
Proof.
  intros CONFIG.
  assert ((connect (U := Sample.picky) [Sample.server ""] Sample.w0).1
          = Ok [Sample.server ""]) as Hc by (vm_compute; reflexivity).
  assert ((attributes_old (U := Sample.picky) "/etc/domains" Sample.w0).1
          = Ok ["evil.com"; "Other.org"]) as Hod by (vm_compute; reflexivity).
  assert ((search_all (U := Sample.picky) search_domains [Sample.server ""]
             Sample.w0).1 = Ok ["evil.com"]) as Hnd by (vm_compute; reflexivity).
  assert ((attributes_old (U := Sample.picky) "/etc/ips"
             (rewrite_if_changed "/etc/domains" ["evil.com"; "Other.org"]
                ["evil.com"] Sample.w0).2).1
          = Ok ["10.0.0.0/8"; "not an address"; "192.168.1.7"]) as Hoi
    by (vm_compute; reflexivity).
  assert ((search_all (U := Sample.picky) search_ips [Sample.server ""]
             Sample.w0).1 = Raise (External "the server rejects the key")) as Hni
    by (vm_compute; reflexivity).
  assert ((list_to_set ["evil.com"; "Other.org"] : gset string)
          ≠ list_to_set ["evil.com"]) as Hne.
  { intros Heq. assert ("Other.org" ∈ (list_to_set ["evil.com"] : gset string)) as Hin.
    { rewrite <-Heq. apply elem_of_list_to_set. right. left. }
    apply elem_of_list_to_set, list_elem_of_singleton in Hin. discriminate Hin. }
  destruct (main_fetch_iocs_fails_half_way (U := Sample.picky) Sample.cc "INFO"
              [Sample.server ""] Sample.w0 _ "/etc/domains" "/etc/ips" _ _ _ _
              Hc eq_refl eq_refl Hod Hnd Hoi Hni) as [Hrun Hfile].
  split; [exact Hni|]. split.
  - exact (f_equal fst Hrun).
  - exact (eq_trans (f_equal (λ r, fs r.2 !! "/etc/domains") Hrun) (Hfile Hne)).
Defined.

Lemma fetched_domains_are_read_back_witness :
  let w' := (rewrite_if_changed "/etc/domains" ["evil.com"; "Other.org"]
               ["evil.com"] Sample.w0).2 in
  truthy (malicious_domains_file Sample.cc) = Some "/etc/domains"
  ∧ build_domain_attributes (U := Sample.utils) Sample.cc [] w'
    = (Ok (list_set ["evil.com"]), w').
Proof.
  intros w'.
  assert ((list_to_set ["evil.com"; "Other.org"] : gset string)
          ≠ list_to_set ["evil.com"]) as Hne.
  { intros Heq. assert ("Other.org" ∈ (list_to_set ["evil.com"] : gset string)) as Hin.
    { rewrite <-Heq. apply elem_of_list_to_set. right. left. }
    apply elem_of_list_to_set, list_elem_of_singleton in Hin. discriminate Hin. }
  assert (Forall clean ["evil.com"]) as Hclean.
  { constructor; [vm_compute; reflexivity|constructor]. }
  assert (read_file (Utils := Sample.utils)
            (Some (joined (Str.line <$> list_set ["evil.com"])))
          = Ok (Some (list_set ["evil.com"]), false)) as Hread
    by (vm_compute; reflexivity).
  split; [reflexivity|].
  exact (fetched_domains_are_read_back (U := Sample.utils) Sample.cc []
           "/etc/domains" _ _ Sample.w0 false eq_refl Hne Hclean Hread).
Defined.


(** ** Directories *)

Lemma bind_ret_unit {A} (m : M A) w :
  (m ≫= λ a, mret tt;; mret a) w = m w.
Proof. rewrite bind_unfold. by destruct (m w) as [[a|e] w1]. Qed.

Section directories.
Context {U : Utils}.

Lemma correlate_input_regular kw sd ds ips totals file w :
  delete_on_success kw = false →
  is_Some (fs w !! Path file) →
  correlate_input kw sd ds ips totals file w
  = correlate_path sd (end_date kw) ds ips totals (Path file) w.
Proof.
  intros Hd Hfile. unfold correlate_input. rewrite Hd.
  rewrite bind_unfold. unfold is_file at 1. rewrite bool_decide_true by done.
  apply bind_ret_unit.
Qed.

Lemma nested_loop_is_files kw sd ds ips w nested totals w' :
  delete_on_success kw = false →
  Forall (λ p, Path p = p) (filter (λ p, is_Some (fs w !! p)) nested) →
  fs w' = fs w →
  for_each (λ totals nested_path,
              regular ← is_file nested_path;
              if (regular : bool) then
                correlate_path sd (end_date kw) ds ips totals nested_path
              else mret totals) nested totals w'
  = for_each (correlate_input kw sd ds ips)
             (filter (λ p, is_Some (fs w !! p)) nested) totals w'.
Proof.
  intros Hd. revert totals w'.
  induction nested as [|p nested IH]; intros totals w' Hnames Hfs; [done|].
  rewrite filter_cons in Hnames |- *. simpl. rewrite bind_unfold. unfold is_file at 1.
  rewrite bind_unfold. simpl. rewrite Hfs.
  destruct (decide (is_Some (fs w !! p))) as [Hp|Hp].
  - apply Forall_cons in Hnames as [Hname Hnames].
    rewrite bool_decide_true by done. simpl. rewrite bind_unfold.
    rewrite correlate_input_regular by (by rewrite ?Hname, ?Hfs).
    rewrite Hname.
    destruct (correlate_path sd (end_date kw) ds ips totals p w')
      as [[t1|e] w1] eqn:Hpath; [|done].
    apply IH; [done|]. apply reads_only_eq in Hpath; [|apply reads_only_correlate_path].
    congruence.
  - rewrite bool_decide_false by done. simpl. by apply IH.
Qed.

(** X18.  In a run that deletes nothing, an argument that is no regular
    file stands for the regular files below it: the argument gives the
    matches, the messages and the world that those files would give as
    arguments of their own, in the order [rglob] lists them.  The
    argument is looked up as pathlib prints it, so that [/in/] stands for
    [/in]; it is taken from the root and without [..], and the files
    below it bear the names under which [rglob] yields them. *)
Theorem directory_is_its_files kw sd ds ips totals d w :
  delete_on_success kw = false →
  Is_true (canonical (Path d)) →
  fs w !! Path d = None →
  Forall (λ p, Path p = p) (regular_below (Path d) w) →
  correlate_input kw sd ds ips totals d w
  = for_each (correlate_input kw sd ds ips) (regular_below (Path d) w) totals w.
Proof.
  intros Hd _ Hfile Hnames. unfold correlate_input at 1. rewrite Hd.
  rewrite bind_unfold. unfold is_file at 1. rewrite Hfile.
  rewrite bool_decide_false by (by intros [? ?]).
  rewrite bind_unfold. unfold rglob at 1. rewrite bind_ret_unit.
  by apply nested_loop_is_files.
Qed.

(** X19.  In a run that deletes on success, an argument that is no
    regular file is removed as a directory once the files below it have
    been read: when the step ends normally the argument named a
    directory, neither it nor anything below it is left, and every other
    file is as it was.  The directory is the one the argument names as
    pathlib prints it, so that [/in/] removes [/in]; the name is taken
    from the root and without [..]. *)
Theorem directory_removed_on_success kw sd ds ips totals d w totals' w' :
  delete_on_success kw = true →
  Is_true (canonical (Path d)) →
  fs w !! Path d = None →
  correlate_input kw sd ds ips totals d w = (Ok totals', w') →
  Path d ∈ dirs w
  ∧ (Path d ∉ dirs w')
  ∧ (∀ p, Is_true (below (Path d) p) → fs w' !! p = None ∧ p ∉ dirs w')
  ∧ (∀ p, ¬ Is_true (below (Path d) p) → fs w' !! p = fs w !! p)
  ∧ ∃ before, trace w' = before ++ [Rmtree d].
Proof.
  intros Hd _ Hfile. unfold correlate_input. rewrite Hd.
  rewrite bind_unfold. unfold is_file at 1. rewrite Hfile.
  rewrite bool_decide_false by (by intros [? ?]).
  rewrite bind_unfold. unfold rglob at 1.
  intros [(t1 & w1 & Hloop & Hrest)|(? & _ & [=])]%bind_inv.
  assert (fs w1 = fs w ∧ dirs w1 = dirs w) as [Hfs Hdirs].
  { assert (reads_only
              (for_each (λ totals nested_path,
                           regular ← is_file nested_path;
                           if (regular : bool) then
                             correlate_path sd (end_date kw) ds ips totals
                               nested_path
                           else mret totals)
                 (filter (λ p, Is_true (below (Path d) p))
                         ((map_to_list (fs w)).*1 ++ elements (dirs w))) totals))
      as Hro.
    { apply reads_only_for_each. intros t x.
      apply reads_only_bind; [done|]. intros [];
        [apply reads_only_correlate_path|done]. }
    specialize (Hro w). by rewrite Hloop in Hro. }
  apply bind_inv in Hrest as [([] & w2 & Hrm & [= _ <-])|(? & _ & [=])].
  unfold rmtree in Hrm. rewrite Hfs, Hfile in Hrm.
  rewrite decide_False in Hrm by (by intros [? ?]).
  destruct (decide (d ≠ "" ∧ Path d ∈ dirs w1)) as [[_ Hin]|]; [|done].
  destruct (rmdir_refuses d); [done|].
  injection Hrm as <-. simpl. rewrite Hdirs in *. split_and!.
  - done.
  - rewrite elem_of_filter. by intros [[Hdd _] _].
  - intros p Hp. split.
    + apply map_lookup_filter_None_2. right. intros bytes _ Hnb. by apply Hnb.
    + rewrite elem_of_filter. by intros [[_ Hnb] _].
  - intros p Hp. destruct (fs w !! p) as [bytes|] eqn:Hbytes.
    + by apply map_lookup_filter_Some_2.
    + apply map_lookup_filter_None_2. by left.
  - by eexists.
Qed.

End directories.

Lemma directory_is_its_files_witness :
  fs Sample.w0 !! Path "/in/" = None
  ∧ regular_below (Path "/in/") Sample.w0 = ["/in/a.log"]
  ∧ correlate_input (U := Sample.utils) (Sample.kw false 99) 10 ["evil.com"] []
      ([], []) "/in/" Sample.w0
    = correlate_input (U := Sample.utils) (Sample.kw false 99) 10 ["evil.com"] []
        ([], []) "/in/a.log" Sample.w0.
Proof.
  assert (fs Sample.w0 !! Path "/in/" = None) as Hfile by (vm_compute; reflexivity).
  assert (regular_below (Path "/in/") Sample.w0 = ["/in/a.log"]) as Hbelow
    by (vm_compute; reflexivity).
  assert (Is_true (canonical (Path "/in/"))) as Hname by (vm_compute; exact I).
  assert (Forall (λ p, Path p = p) (regular_below (Path "/in/") Sample.w0)) as Hnames.
  { rewrite Hbelow. constructor; [vm_compute; reflexivity|constructor]. }
  split; [exact Hfile|]. split; [exact Hbelow|].
  refine (eq_trans (directory_is_its_files (U := Sample.utils) (Sample.kw false 99)
                      10 ["evil.com"] [] ([], []) "/in/" Sample.w0 eq_refl Hname
                      Hfile Hnames) _).
  rewrite Hbelow. vm_compute. reflexivity.
Defined.

Lemma directory_removed_on_success_witness :
  let w' := (correlate_input (U := Sample.utils) (Sample.kw true 99) 10
               ["evil.com"] [] ([], []) "/in/" Sample.w0).2 in
  correlate_input (U := Sample.utils) (Sample.kw true 99) 10 ["evil.com"] []
    ([], []) "/in/" Sample.w0 = (Ok (take 1 Sample.found, []), w')
  ∧ ("/in" ∉ dirs w')
  ∧ fs w' !! "/in/a.log" = None
  ∧ fs w' !! "/etc/domains" = fs Sample.w0 !! "/etc/domains".
Proof.
  intros w'.
  assert (fs Sample.w0 !! Path "/in/" = None) as Hfile by (vm_compute; reflexivity).
  assert (Is_true (canonical (Path "/in/"))) as Hname by (vm_compute; exact I).
  assert (correlate_input (U := Sample.utils) (Sample.kw true 99) 10 ["evil.com"] []
            ([], []) "/in/" Sample.w0 = (Ok (take 1 Sample.found, []), w')) as Hrun
    by (vm_compute; reflexivity).
  destruct (directory_removed_on_success (U := Sample.utils) (Sample.kw true 99)
              _ _ _ _ _ _ _ _ eq_refl Hname Hfile Hrun)
    as (_ & Hgone & Hbelow & Hother & _).
  assert (Is_true (below (Path "/in/") "/in/a.log")) as Hin by (vm_compute; exact I).
  assert (¬ Is_true (below (Path "/in/") "/etc/domains")) as Hout
    by (vm_compute; exact id).
  split; [exact Hrun|]. split; [exact Hgone|]. split.
  - exact (proj1 (Hbelow "/in/a.log" Hin)).
  - exact (Hother "/etc/domains" Hout).
Defined.

(** ** Attributes of two parts *)

Section composite.
Context {U : Utils}.

(** X20.  An attribute of type [domain|ip], [hostname|port],
    [ip-src|port] or [ip-dst|port] must hold exactly one bar: its value is
    then the two parts around the bar, of which the domain or host name
    goes to the domains and the address to the addresses, a port being
    dropped; with no bar or several the unpacking fails and the command
    stops with [ValueError]. *)
Theorem composite_attribute_by_bars new a w :
  (occurrences "|" (value a) = 1%nat →
   ∃ left right,
     value a = left +:+ String "|" right
     ∧ (type a = "domain|ip" →
        bucket new a w = (Ok (new.1 ++ [left], new.2 ++ [right]), w))
     ∧ (type a = "hostname|port" →
        bucket new a w = (Ok (new.1 ++ [left], new.2), w))
     ∧ (type a = "ip-src|port" ∨ type a = "ip-dst|port" →
        bucket new a w = (Ok (new.1, new.2 ++ [left]), w)))
  ∧ (occurrences "|" (value a) ≠ 1%nat →
     type a = "domain|ip" ∨ type a = "hostname|port"
     ∨ type a = "ip-src|port" ∨ type a = "ip-dst|port" →
     bucket new a w = (Raise ValueError, w)).
Proof.
  split.
  - intros Hocc.
    destruct (split2_two "|" (value a) Hocc) as (left & right & Hv & Hsplit).
    exists left, right. split; [done|]. split_and!.
    + intros Ht. unfold bucket. rewrite Ht. simpl. by rewrite bind_unfold, Hsplit.
    + intros Ht. unfold bucket. rewrite Ht. simpl. by rewrite bind_unfold, Hsplit.
    + intros [Ht|Ht]; unfold bucket; rewrite Ht; simpl;
        by rewrite bind_unfold, Hsplit.
  - intros Hocc [Ht|[Ht|[Ht|Ht]]]; unfold bucket; rewrite Ht; simpl;
      by rewrite bind_unfold, split2_other.
Qed.

End composite.

Lemma composite_attribute_by_bars_witness :
  let a := Attribute "domain|ip" "evil.example|10.0.0.9" in
  occurrences "|" (value a) = 1%nat
  ∧ ∃ left right,
      value a = left +:+ String "|" right
      ∧ bucket (U := Sample.utils) ([], []) a Sample.w0
        = (Ok ([] ++ [left], [] ++ [right]), Sample.w0).
Proof.
  intros a.
  assert (occurrences "|" (value a) = 1%nat) as Hocc by (vm_compute; reflexivity).
  split; [exact Hocc|].
  destruct (proj1 (composite_attribute_by_bars (U := Sample.utils) ([], []) a
                     Sample.w0) Hocc) as (left & right & Hv & Hboth & _).
  exists left, right. split; [exact Hv|]. exact (Hboth eq_refl).
Defined.
